(** * mezuri-provenance: registry and publish workflow

    A shallow embedding of [src/registry/app.py] (the registry's REST
    resources over its in-memory store), of [src/cli/utils.py] (the
    component context and the init / commit / publish commands) and of
    [src/lib/declarations.py] (the types of declarations and the
    decorators), with the properties of the version-tagging and publish
    protocol stated over them. *)

From Stdlib Require Import String Ascii List ZArith NArith Lia Bool DecimalString.
From stdpp Require Import base option list gmap strings.

Local Open Scope string_scope.
Local Open Scope list_scope.

Set Warnings "-register-all".

(** ** JSON documents

    What [json.load] returns and [json.dumps] takes.  Objects keep the
    order of their keys. *)

Inductive Json : Type :=
| JNull
| JBool (b : bool)
| JNum (n : Z)
| JStr (s : string)
| JArr (items : list Json)
| JObj (fields : list (string * Json)).

(** * The registry: [src/registry/app.py] *)

Module Registry.

(** An entry of the [operators] dict. *)
Record Operator : Type := mkOperator {
  op_name : string;
  op_gitRemoteUrl : string;
  op_versions : list string
}.

(** An entry of the [operator_versions] list. *)
Record OperatorVersion : Type := mkOperatorVersion {
  ov_version : string;
  ov_hash : string;
  ov_operator_name : string;
  ov_spec : Json
}.

(** The two module-level globals [operators] and [operator_versions]. *)
Record Store : Type := mkStore {
  operators : gmap string Operator;
  operator_versions : list OperatorVersion
}.

Definition empty_store : Store := mkStore ∅ [].

(** *** The remote repositories the registry clones

    [Git.clone], [Git.rev_parse] and [Git.checkout] come from
    [utilities.git], which is an external collaborator; what they find is
    taken as a parameter.  A clone is either refused or gives a repository
    in which a ref resolves to a hash (or to nothing), and whose working
    tree holds, after a checkout, the spec file of that revision. *)

Inductive SpecFile : Type :=
| FileMissing
| FileInvalid
| FileJson (j : Json).

Record Repo : Type := mkRepo {
  repo_rev_parse : string -> option string;
  repo_head_spec : SpecFile;
  repo_checkout : string -> option SpecFile
}.

(** [Git.clone(remote_url, directory)]: [None] when the remote is not
    readable. *)
Definition Remotes : Type := string -> option Repo.

(** The spec file in the working tree after [Git.checkout(h)], whose result
    the code does not look at: a checkout that fails leaves the cloned
    head in place. *)
Definition working_spec (r : Repo) (h : string) : SpecFile :=
  match repo_checkout r h with
  | Some f => f
  | None => repo_head_spec r
  end.

(** *** Results *)

Inductive Exn : Type :=
| FileNotFoundError
| JSONDecodeError.

(** A computation inside a view: a value, an [abort(...)] carrying the
    response to send, or an exception nobody catches. *)
Inductive Result (A : Type) : Type :=
| Ok (a : A)
| Abort (status : nat) (error : string)
| Raise (e : Exn).
Arguments Ok {A} a.
Arguments Abort {A} status error.
Arguments Raise {A} e.

Inductive Body : Type :=
| BError (msg : string)
| BComponents (ops : gmap string Operator)
| BComponent (op : Operator)
| BVersions (vs : list (string * string))
| BVersion (ov : OperatorVersion)
| BOperatorVersion (ov : OperatorVersion).

(** What the client gets: a response, or the failure of a view that raised
    (the server's internal error). *)
Inductive Outcome : Type :=
| Response (status : nat) (body : Body)
| Unhandled (e : Exn).

Definition status_of (o : Outcome) : option nat :=
  match o with
  | Response st _ => Some st
  | Unhandled _ => None
  end.

(** [fetch_remote_spec(remote_url, version_hash, version_tag)] *)
Definition fetch_remote_spec (remotes : Remotes)
    (remote_url version_hash version_tag : string) : Result Json :=
  match remotes remote_url with
  | None => Abort 400 "Remote repository is not readable"
  | Some repo =>
      if decide (repo_rev_parse repo version_tag = Some version_hash) then
        match working_spec repo version_hash with
        | FileMissing => Raise FileNotFoundError
        | FileInvalid => Raise JSONDecodeError
        | FileJson j => Ok j
        end
      else Abort 400 "Remote repository version does not match"
  end.

(** The [errorhandler(409)]. *)
Definition conflict : Outcome := Response 409 (BError "Component already exists").

(** *** Request bodies

    Each [reqparse] argument is [required=True]: a missing one aborts the
    request with 400 and the argument's help text. *)

Record OperatorArgs : Type := mkOperatorArgs {
  arg_name : option string;
  arg_gitRemoteUrl : option string
}.

Record VersionArgs : Type := mkVersionArgs {
  arg_version : option string;
  arg_version_tag : option string;
  arg_version_hash : option string
}.

Definition required {A} (a : option A) (help : string) : Result A :=
  match a with
  | Some x => Ok x
  | None => Abort 400 help
  end.

#[export] Instance result_bind : MBind Result := fun A B k r =>
  match r with
  | Ok a => k a
  | Abort st e => Abort st e
  | Raise e => Raise e
  end.

Definition parse_operator_args (a : OperatorArgs) : Result (string * string) :=
  name ← required (arg_name a) "Operator name not provided";
  url ← required (arg_gitRemoteUrl a) "Operator git remote url not provided";
  Ok (name, url).

Definition parse_version_args (a : VersionArgs) : Result (string * string * string) :=
  version ← required (arg_version a) "Version to be published not provided";
  tag ← required (arg_version_tag a) "Version tag not provided";
  hash ← required (arg_version_hash a) "Version hash not provided";
  Ok (version, tag, hash).

(** A view yields the response (or the abort, or the exception) and the
    store it leaves. *)
Definition finish (r : Result (nat * Body * Store)) (s : Store) : Outcome * Store :=
  match r with
  | Ok (st, b, s') => (Response st b, s')
  | Abort st e =>
      (if decide (st = 409) then conflict else Response st (BError e), s)
  | Raise e => (Unhandled e, s)
  end.

(** [OperatorListAPI.get] *)
Definition OperatorListAPI_get (s : Store) : Outcome * Store :=
  (Response 200 (BComponents (operators s)), s).

(** [OperatorListAPI.post] *)
Definition OperatorListAPI_post (args : OperatorArgs) (s : Store) : Outcome * Store :=
  finish
    ('(name, url) ← parse_operator_args args;
     match operators s !! name with
     | Some _ => Abort 409 ""
     | None =>
         let operator := mkOperator name url [] in
         Ok (201, BComponent operator,
             mkStore (<[name := operator]> (operators s)) (operator_versions s))
     end) s.

(** [OperatorAPI.get] *)
Definition OperatorAPI_get (name : string) (s : Store) : Outcome * Store :=
  match operators s !! name with
  | None => (Response 404 (BError "Operator does not exist"), s)
  | Some op => (Response 200 (BComponent op), s)
  end.

(** [OperatorVersionListAPI.get] *)
Definition OperatorVersionListAPI_get (operator_name : string) (s : Store)
    : Outcome * Store :=
  match operators s !! operator_name with
  | None => (Response 404 (BError "Operator does not exist"), s)
  | Some _ =>
      (Response 200
         (BVersions
            ((fun v => (ov_version v, ov_hash v)) <$>
               filter (fun v => ov_operator_name v = operator_name)
                      (operator_versions s))), s)
  end.

(** [OperatorVersionListAPI.post].  The operator fetched from the dict is
    the object stored there, so appending to its [versions] list updates the
    dict's entry. *)
Definition OperatorVersionListAPI_post (remotes : Remotes) (operator_name : string)
    (args : VersionArgs) (s : Store) : Outcome * Store :=
  match operators s !! operator_name with
  | None => (Response 404 (BError "Operator does not exist"), s)
  | Some operator =>
      finish
        ('(version, version_tag, version_hash) ← parse_version_args args;
         if decide (version ∈ op_versions operator) then Abort 409 ""
         else
           spec ← fetch_remote_spec remotes (op_gitRemoteUrl operator)
                    version_hash version_tag;
           let operator_version :=
             mkOperatorVersion version version_hash operator_name spec in
           let operator' :=
             mkOperator (op_name operator) (op_gitRemoteUrl operator)
                        (op_versions operator ++ [version]) in
           Ok (201, BVersion operator_version,
               mkStore (<[operator_name := operator']> (operators s))
                       (operator_versions s ++ [operator_version]))) s
  end.

(** The loop of [OperatorVersionAPI.get]: the first record of that operator
    with that version. *)
Fixpoint find_version (operator_name version : string)
    (vs : list OperatorVersion) : option OperatorVersion :=
  match vs with
  | [] => None
  | operator_version :: rest =>
      if decide (ov_operator_name operator_version = operator_name) then
        if decide (ov_version operator_version = version) then Some operator_version
        else find_version operator_name version rest
      else find_version operator_name version rest
  end.

(** [OperatorVersionAPI.get] *)
Definition OperatorVersionAPI_get (operator_name version : string) (s : Store)
    : Outcome * Store :=
  match operators s !! operator_name with
  | None => (Response 404 (BError "Operator does not exist"), s)
  | Some _ =>
      match find_version operator_name version (operator_versions s) with
      | Some ov => (Response 200 (BOperatorVersion ov), s)
      | None => (Response 404 (BError "Operator version does not exist"), s)
      end
  end.

(** *** The routes *)

Inductive Request : Type :=
| GET_operators
| POST_operators (args : OperatorArgs)
| GET_operator (name : string)
| GET_operator_versions (operator_name : string)
| POST_operator_versions (operator_name : string) (args : VersionArgs)
| GET_operator_version (operator_name version : string).

Definition handle (remotes : Remotes) (r : Request) (s : Store) : Outcome * Store :=
  match r with
  | GET_operators => OperatorListAPI_get s
  | POST_operators args => OperatorListAPI_post args s
  | GET_operator name => OperatorAPI_get name s
  | GET_operator_versions n => OperatorVersionListAPI_get n s
  | POST_operator_versions n args => OperatorVersionListAPI_post remotes n args s
  | GET_operator_version n v => OperatorVersionAPI_get n v s
  end.

(** The store after serving a sequence of requests, one after the other,
    each against the remotes as they are when it is served. *)
Fixpoint serve (reqs : list (Remotes * Request)) (s : Store) : Store :=
  match reqs with
  | [] => s
  | (remotes, r) :: rest => serve rest (handle remotes r s).2
  end.

(** *** A small registry to run the views on

    One operator, [demo], whose remote [R] has the tag
    [mezuri/sources/1.0.0] at the revision [H1], with a spec file, and the tag
    [mezuri/sources/1.1.0] at the revision [H2], which has none. *)

Definition demo_spec : Json := JObj [("name", JStr "demo"); ("version", JStr "1.0.0")].

Definition demo_repo : Repo :=
  mkRepo
    (fun ref => if String.eqb ref "mezuri/sources/1.0.0" then Some "H1"
                else if String.eqb ref "mezuri/sources/1.1.0" then Some "H2"
                else None)
    FileMissing
    (fun h => if String.eqb h "H1" then Some (FileJson demo_spec)
              else if String.eqb h "H2" then Some FileMissing
              else None).

Definition demo_remotes : Remotes :=
  fun url => if String.eqb url "R" then Some demo_repo else None.

Definition demo_operator : Operator := mkOperator "demo" "R" [].

Definition demo_store : Store := mkStore {[ "demo" := demo_operator ]} [].

Definition version_args (version version_tag version_hash : string) : VersionArgs :=
  mkVersionArgs (Some version) (Some version_tag) (Some version_hash).

Definition operator_args (name gitRemoteUrl : string) : OperatorArgs :=
  mkOperatorArgs (Some name) (Some gitRemoteUrl).

(** *** What the properties of the registry speak about *)

(** The hash the remote's tag resolves to, when the remote can be cloned and
    knows the tag. *)
Definition resolved_hash (remotes : Remotes) (remote_url version_tag : string)
    : option string :=
  match remotes remote_url with
  | Some repo => repo_rev_parse repo version_tag
  | None => None
  end.

(** The spec read from the remote at a revision, when there is a readable
    one. *)
Definition spec_at (remotes : Remotes) (remote_url version_hash : string)
    : option Json :=
  match remotes remote_url with
  | Some repo =>
      match working_spec repo version_hash with
      | FileJson j => Some j
      | _ => None
      end
  | None => None
  end.

(** The records of one version of one operator. *)
Definition records_of (operator_name version : string)
    (records : list OperatorVersion) : list OperatorVersion :=
  filter (fun r => ov_operator_name r = operator_name ∧ ov_version r = version)
         records.

(** How often a version occurs in a list of versions. *)
Definition occurrences (version : string) (versions : list string) : nat :=
  length (filter (fun v => v = version) versions).

(** The operators' lists and the records agree: no version twice in a list,
    and a version in a list exactly when it has one record. *)
Definition store_consistent (s : Store) : Prop :=
  ∀ name op, operators s !! name = Some op →
    ∀ v, (occurrences v (op_versions op) ≤ 1)%nat ∧
         (v ∈ op_versions op ↔
          length (records_of name v (operator_versions s)) = 1).

(** The same with the records of unknown operators counted: there are
    none. *)
Definition store_tight (s : Store) : Prop :=
  ∀ name v,
    (length (records_of name v (operator_versions s)) ≤ 1)%nat ∧
    length (records_of name v (operator_versions s)) =
      match operators s !! name with
      | Some op => occurrences v (op_versions op)
      | None => 0
      end.

(** The versions of the records of one operator, in the order of the
    records. *)
Definition recorded_versions (operator_name : string)
    (records : list OperatorVersion) : list string :=
  ov_version <$> filter (fun r => ov_operator_name r = operator_name) records.

(** The records of an operator list its versions in the order of its own
    list, an unknown operator has no record, and an operator is stored under
    its name. *)
Definition store_ordered (s : Store) : Prop :=
  (∀ name, recorded_versions name (operator_versions s) =
             match operators s !! name with
             | Some op => op_versions op
             | None => []
             end) ∧
  (∀ name op, operators s !! name = Some op → op_name op = name).

End Registry.

(** * Versions and version tags *)

Module VersionModel.

(** Modelled from the spec: [common.constructs] (the classes [Version] and
    [VersionTag] and [DEFAULT_VERSION]) is not among the sources.  A Version
    is the tuple (major, minor, patch, update counter), the counter being 0
    when it is not given, ordered lexicographically. *)
Record Version : Type := mkVersion {
  major : N;
  minor : N;
  patch : N;
  update_num : N
}.

#[export] Instance Version_eq_dec : EqDecision Version.
Proof. solve_decision. Defined.

Definition DEFAULT_VERSION : Version := mkVersion 0 0 0 0.

Definition lex (c1 c2 : comparison) : comparison :=
  match c1 with
  | Eq => c2
  | _ => c1
  end.

(** Modelled from the spec: [compare(a, b)], the lexicographic order of the
    tuples. *)
Definition Version_compare (a b : Version) : comparison :=
  lex (major a ?= major b)%N
    (lex (minor a ?= minor b)%N
       (lex (patch a ?= patch b)%N (update_num a ?= update_num b)%N)).

Definition Version_le (a b : Version) : bool :=
  match Version_compare a b with
  | Gt => false
  | _ => true
  end.

Definition Version_lt (a b : Version) : bool :=
  match Version_compare a b with
  | Lt => true
  | _ => false
  end.

(** Modelled from the spec: the text of a Version, which [Version(s)] reads
    and [str(v)] writes.  The spec gives no grammar for it, so both
    directions are taken as parameters. *)
Class VersionSyntax : Type := {
  Version_parse : string -> option Version;
  Version_str : Version -> string
}.

(** A value held by a component's spec dict: JSON data, or a [Version]
    object. *)
Inductive SpecVal : Type :=
| VJson (j : Json)
| VVersion (v : Version).

(** Modelled from the spec: a VersionTag is (componentType, componentName,
    Version).  The name is the value the spec holds under ["name"]
    ([None] before the component is named). *)
Record VersionTag : Type := mkVersionTag {
  component_type : string;
  component_name : SpecVal;
  version : Version
}.

(** Modelled from the spec: tags are compared by their Version. *)
Definition VersionTag_le (a b : VersionTag) : bool :=
  Version_le (version a) (version b).

Definition VersionTag_lt (a b : VersionTag) : bool :=
  Version_lt (version a) (version b).

(** Modelled from the spec: [withIncrementedUpdateNum()], the same tag with
    the update counter one higher. *)
Definition with_incremented_update_num (t : VersionTag) : VersionTag :=
  mkVersionTag (component_type t) (component_name t)
    (mkVersion (major (version t)) (minor (version t)) (patch (version t))
               (update_num (version t) + 1)).

(** Python's [max] over a sequence: the first of the greatest items (an item
    replaces the current one only when it is strictly greater). *)
Definition max_from (first : VersionTag) (rest : list VersionTag) : VersionTag :=
  fold_left (fun best t => if VersionTag_lt best t then t else best) rest first.

Definition py_max (ts : list VersionTag) : option VersionTag :=
  match ts with
  | [] => None
  | t :: rest => Some (max_from t rest)
  end.

(** [s.split(sep)] for a one-character separator. *)
Fixpoint split_on (sep : ascii) (s : string) : list string :=
  match s with
  | EmptyString => [EmptyString]
  | String c rest =>
      if Ascii.eqb c sep then EmptyString :: split_on sep rest
      else
        match split_on sep rest with
        | [] => [String c EmptyString]
        | w :: ws => String c w :: ws
        end
  end.

Definition slash : ascii := "/"%char.


Section Syntax.
Context {syntax : VersionSyntax}.

(** The tag's name, [TAG_NAME_FORMAT] of [src/cli/utils.py]:
    ['mezuri/{component_type}/{version}']. *)
Definition VersionTag_str (t : VersionTag) : string :=
  "mezuri/" +:+ component_type t +:+ "/" +:+ Version_str (version t).

(** Modelled from the spec: [VersionTag.parse(s)] accepts
    ["mezuri/<componentType>/<version>"] and nothing else.  The tag's name
    does not carry the component's name, so the parsed tag has none. *)
Definition VersionTag_parse (s : string) : option VersionTag :=
  match split_on slash s with
  | [ns; ty; v] =>
      if String.eqb ns "mezuri" then
        match Version_parse v with
        | Some ver => Some (mkVersionTag ty (VJson JNull) ver)
        | None => None
        end
      else None
  | _ => None
  end.

(** [VersionTag.parse(tag) for tag in tags], which stops at the first tag
    that does not parse. *)
Fixpoint parse_all (tags : list string) : option (list VersionTag) :=
  match tags with
  | [] => Some []
  | s :: rest =>
      match VersionTag_parse s with
      | None => None
      | Some t =>
          match parse_all rest with
          | None => None
          | Some ts => Some (t :: ts)
          end
      end
  end.
End Syntax.

End VersionModel.

(** * The command line: [src/cli/utils.py] *)

Module CLI.
Import VersionModel.

(** ** Python values *)

(** An [OrderedDict] keyed by strings: the pairs in insertion order. *)
Definition odict (V : Type) : Type := list (string * V).

Fixpoint od_get {V} (k : string) (d : odict V) : option V :=
  match d with
  | [] => None
  | (k', v) :: rest => if String.eqb k k' then Some v else od_get k rest
  end.

(** [d[k] = v]: a key that is there keeps its place. *)
Fixpoint od_set {V} (k : string) (v : V) (d : odict V) : odict V :=
  match d with
  | [] => [(k, v)]
  | (k', v') :: rest =>
      if String.eqb k k' then (k, v) :: rest else (k', v') :: od_set k v rest
  end.

(** [d.update(pairs)] *)
Definition od_update {V} (d : odict V) (pairs : list (string * V)) : odict V :=
  fold_left (fun acc kv => od_set (fst kv) (snd kv) acc) pairs d.

Definition Spec : Type := odict SpecVal.

(** What a command returns to its caller. *)
Inductive PyRet : Type :=
| Ret_int (n : Z)
| Ret_None.

Inductive Exn : Type :=
| KeyError (key : string)
| TypeError
| ParseError
| JSONDecodeError
| EOFError
| RegistryError (message : string).

(** ** The world a command runs in *)

(** The spec file found from the working directory upwards: garbled, or the
    document [json.load] reads from it. *)
Inductive FileContent : Type :=
| Garbled
| Doc (j : Json).

Inductive Event : Type :=
| Print (line : string)
| Prompt (text : string)
| WriteSpec (path : string) (doc : Json)
| GitInit
| GitAdd (path : Json)
| GitCommit (message : string) (substitute_author made : bool)
| GitTagCreate (name : string) (message : option string) (created : bool)
| GitRemoteAdd (name url : string)
| GitPush (remote : Json) (tag : option string) (accepted : bool)
| RegistryPush (registry : Json) (component_type : string) (name : SpecVal)
               (url : Json) (tag hash : string) (error : option string).

Record World : Type := mkWorld {
  spec_file : option (string * FileContent);
  git_tags : list (string * option string);
  git_commits : list string;
  git_remotes : list (string * string);
  stdin : list string;
  trace : list Event
}.

(** Modelled from the spec: [common.git] and [common.registry] are not among
    the sources.  What the calls into them answer is taken as a parameter:
    whether a commit is made, whether a push is accepted, the hash of a tag,
    the registry's answer, and the tags another actor creates between the
    listing of the tags and the creation of ours.  A failing call reports it
    through its result, the way [component_publish] tests that of
    [Git.push] and of [Git.commit]. *)
Record Env : Type := mkEnv {
  cwd : string;
  commit_made : string -> bool;
  push_accepted : Json -> option string -> bool;
  tag_hash : string -> string;
  registry_error : Json -> string -> string -> option string;
  racing_tags : list (string * option string)
}.

(** ** Computations

    A block of statements, run from a state: it goes on with a value, leaves
    the function by [return], or raises.  The state is kept in all three
    cases. *)
Inductive Res (A : Type) : Type :=
| Val (a : A)
| Return (r : PyRet)
| Raise (e : Exn).
Arguments Val {A} a.
Arguments Return {A} r.
Arguments Raise {A} e.

Definition M (S A : Type) : Type := S -> Res A * S.

#[export] Instance M_ret {S} : MRet (M S) := fun A a s => (Val a, s).

#[export] Instance M_bind {S} : MBind (M S) := fun A B k m s =>
  match m s with
  | (Val a, s') => k a s'
  | (Return r, s') => (Return r, s')
  | (Raise e, s') => (Raise e, s')
  end.

Definition return_ {S A} (r : PyRet) : M S A := fun s => (Return r, s).
Definition raise {S A} (e : Exn) : M S A := fun s => (Raise e, s).
Definition get {S} : M S S := fun s => (Val s, s).

(** [if cond: block] *)
Definition when_ {S} (cond : bool) (block : M S unit) : M S unit :=
  if cond then block else mret tt.

Definition is_None {A} (x : option A) : bool :=
  match x with
  | None => true
  | Some _ => false
  end.

(** How a call of a function ends. *)
Inductive Outcome : Type :=
| Returns (r : PyRet)
| Raises (e : Exn).

(** A function body: falling off its end returns [None]. *)
Definition call {S} (body : M S unit) (s : S) : Outcome * S :=
  match body s with
  | (Val _, s') => (Returns Ret_None, s')
  | (Return r, s') => (Returns r, s')
  | (Raise e, s') => (Raises e, s')
  end.

Definition emit (e : Event) (w : World) : World :=
  mkWorld (spec_file w) (git_tags w) (git_commits w) (git_remotes w) (stdin w)
          (trace w ++ [e]).

Definition print (line : string) : M World unit :=
  fun w => (Val tt, emit (Print line) w).

(** [input(prompt)] *)
Definition input (prompt : string) : M World string := fun w =>
  match stdin w with
  | [] => (Raise EOFError, emit (Prompt prompt) w)
  | line :: rest =>
      (Val line,
       emit (Prompt prompt)
         (mkWorld (spec_file w) (git_tags w) (git_commits w) (git_remotes w)
                  rest (trace w)))
  end.

(** ** Strings *)

(** The characters [str.strip] and [str.split] take for blanks, among the
    code points below 256, which are the characters of a [string] here:
    tab to carriage return, the four separators before the space, the
    space, next line and the no-break space. *)
Definition is_space (c : ascii) : bool :=
  let n := N_of_ascii c in
  ((9 <=? n) && (n <=? 13) || (28 <=? n) && (n <=? 32)
   || (n =? 133) || (n =? 160))%N.

Fixpoint lstrip (s : string) : string :=
  match s with
  | String c rest => if is_space c then lstrip rest else s
  | EmptyString => EmptyString
  end.

(** [s.strip()] *)
Definition strip (s : string) : string :=
  String.rev (lstrip (String.rev (lstrip s))).

(** [len(s.split())]: the number of runs of characters that are not blank. *)
Fixpoint count_words (in_word : bool) (s : string) : nat :=
  match s with
  | EmptyString => 0
  | String c rest =>
      if is_space c then count_words false rest
      else if in_word then count_words true rest
      else S (count_words true rest)
  end.

(** [sep.join(items)] *)
Fixpoint join (sep : string) (items : list string) : string :=
  match items with
  | [] => ""
  | [x] => x
  | x :: rest => x +:+ sep +:+ join sep rest
  end.

(** ** Constants *)

(** Modelled from the spec: [SPEC_FILENAME] and [SPEC_IOP_DECLARATION_KEY]
    are imported from [common], which is not among the sources; the spec
    file's keys are listed in the spec, its name in the docstring of
    [src/cli/utils.py]. *)
Definition SPEC_FILENAME : string := "specification.json".
Definition SPEC_IOP_DECLARATION_KEY : string := "iopDeclaration".

Definition DEFAULT_REGISTRY : string := "http://registry.mezuri.org".

(** [os.path.join(os.getcwd(), SPEC_FILENAME)] *)
Definition path_join (dir file : string) : string :=
  if String.eqb dir "/" then dir +:+ file else dir +:+ "/" +:+ file.

(** ** The component context *)

(** The context dict handed to the body of a [with component_context(...)]
    block: the spec under [SPEC_KEY] and, once the component is initialized,
    the spec file's path under [SPEC_PATH_KEY]. *)
Record Ctx : Type := mkCtx {
  ctx_spec : Spec;
  ctx_path : option string
}.

(** A block inside the [with]: it sees the context and the world. *)
Definition lift {A} (m : M World A) : M (Ctx * World) A := fun s =>
  let '(r, w') := m s.2 in (r, (s.1, w')).

Definition get_spec : M (Ctx * World) Spec := fun s => (Val (ctx_spec s.1), s).
Definition get_path : M (Ctx * World) (option string) :=
  fun s => (Val (ctx_path s.1), s).

(** [spec[k] = v] *)
Definition set_spec (k : string) (v : SpecVal) : M (Ctx * World) unit := fun s =>
  (Val tt, (mkCtx (od_set k v (ctx_spec s.1)) (ctx_path s.1), s.2)).

(** [ctx[SPEC_PATH_KEY] = path] *)
Definition set_path (path : string) : M (Ctx * World) unit := fun s =>
  (Val tt, (mkCtx (ctx_spec s.1) (Some path), s.2)).

(** [d[k]] on a JSON value *)
Definition getitem {S} (j : Json) (k : string) : M S Json :=
  match j with
  | JObj fields =>
      match od_get k fields with
      | Some v => mret v
      | None => raise (KeyError k)
      end
  | _ => raise TypeError
  end.

(** [d[k]] on a value of the spec *)
Definition sv_getitem {S} (v : SpecVal) (k : string) : M S Json :=
  match v with
  | VJson j => getitem j k
  | VVersion _ => raise TypeError
  end.

(** [spec[k]] *)
Definition spec_getitem {S} (spec : Spec) (k : string) : M S SpecVal :=
  match od_get k spec with
  | Some v => mret v
  | None => raise (KeyError k)
  end.

(** [component_spec_defaults(component_type)] *)
Definition component_spec_defaults (component_type : string) : Spec :=
  [("name", VJson JNull);
   ("componentType", VJson (JStr component_type));
   ("description", VJson JNull);
   ("version", VVersion DEFAULT_VERSION)].

Section Commands.
Context {syntax : VersionSyntax} (env : Env).

(** [Version(x)] *)
Definition Version_of {S} (x : Json) : M S Version :=
  match x with
  | JStr s =>
      match Version_parse s with
      | Some v => mret v
      | None => raise ParseError
      end
  | _ => raise TypeError
  end.

(** [specification()]: the spec and its path, or [(None, None)] when no
    spec file is found. *)
Definition specification : M World (option (Spec * string)) := fun w =>
  match spec_file w with
  | None => (Val None, w)
  | Some (filename, Garbled) => (Raise JSONDecodeError, w)
  | Some (filename, Doc (JObj fields)) =>
      let spec : Spec := od_update [] (prod_map id VJson <$> fields) in
      (v ← spec_getitem spec "version";
       ver ← match v with
             | VJson j => Version_of j
             | VVersion _ => raise TypeError
             end;
       mret (Some (od_set "version" (VVersion ver) spec, filename))) w
  | Some (filename, Doc _) => (Raise TypeError, w)
  end.

(** [calculate_component_context(component_type, spec_defaults)] *)
Definition calculate_component_context (component_type : string)
    (spec_defaults : option Spec) : M World Ctx :=
  let spec := component_spec_defaults component_type in
  let spec := match spec_defaults with
              | Some d => od_update spec d
              | None => spec
              end in
  saved ← specification;
  match saved with
  | Some (saved_spec, path) => mret (mkCtx (od_update spec saved_spec) (Some path))
  | None => mret (mkCtx spec None)
  end.

(** The dict [save_component_context] dumps: every [Version] as its text. *)
Definition spec_to_save (spec : Spec) : Json :=
  JObj (prod_map id (fun v => match v with
                              | VVersion ver => JStr (Version_str ver)
                              | VJson j => j
                              end) <$> spec).

Definition write_spec (path : string) (doc : Json) (w : World) : World :=
  emit (WriteSpec path doc)
    (mkWorld (Some (path, Doc doc)) (git_tags w) (git_commits w)
             (git_remotes w) (stdin w) (trace w)).

(** [save_component_context(context)] *)
Definition save_component_context (context : Ctx) (w : World) : World :=
  match ctx_path context with
  | Some path => write_spec path (spec_to_save (ctx_spec context)) w
  | None => w
  end.

(** [with component_context(component_type, spec_defaults) as ctx: body].
    The body works on [ctx_copy], a copy of the context dict that shares
    the spec with it.  On the way out the context is saved: the copy when
    the body ended (by its end or by [return]), the original dict, with
    the shared spec as the body left it, when the body raised. *)
Definition component_context {A} (component_type : string)
    (spec_defaults : option Spec) (body : M (Ctx * World) A) : M World A :=
  ctx ← calculate_component_context component_type spec_defaults;
  ((fun w =>
      match body (ctx, w) with
      | (Val a, (ctx_copy, w')) => (Val a, save_component_context ctx_copy w')
      | (Return r, (ctx_copy, w')) =>
          (Return r, save_component_context ctx_copy w')
      | (Raise e, (ctx_copy, w')) =>
          (Raise e,
           save_component_context (mkCtx (ctx_spec ctx_copy) (ctx_path ctx)) w')
      end) : M World A).

(** ** Git and the registry client

    Modelled from the spec: the version-control command abstraction (init,
    stage, commit, tag create/list/message, remote add/list/url, push) and
    the registry client, over the tags, commits and remotes of the world.
    Every call is recorded in the trace with what it answered. *)

Definition set_git (tags : list (string * option string))
    (commits : list string) (remotes : list (string * string))
    (w : World) : World :=
  mkWorld (spec_file w) tags commits remotes (stdin w) (trace w).

Definition Git_init : M World unit := fun w => (Val tt, emit GitInit w).

Definition Git_add (path : Json) : M World unit :=
  fun w => (Val tt, emit (GitAdd path) w).

(** [Git.commit(message, substitute_author)]: whether a commit was made
    ([None] is returned when none was). *)
Definition Git_commit (message : string) (substitute_author : bool)
    : M World bool := fun w =>
  let made := commit_made env message in
  (Val made,
   emit (GitCommit message substitute_author made)
     (if made
      then set_git (git_tags w) (git_commits w ++ [message]) (git_remotes w) w
      else w)).

(** [Git.tag.list()] *)
Definition Git_tag_list : M World (list string) :=
  fun w => (Val (git_tags w).*1, w).

Definition has_tag (name : string) (tags : list (string * option string)) : bool :=
  existsb (String.eqb name) tags.*1.

(** The tags once another actor's have arrived. *)
Definition with_racing_tags (tags : list (string * option string))
    : list (string * option string) :=
  fold_left (fun acc t => if has_tag (fst t) acc then acc else acc ++ [t])
            (racing_tags env) tags.

(** [Git.tag.create(name, message)]: refused when the tag exists. *)
Definition Git_tag_create (name : string) (message : option string)
    : M World bool := fun w =>
  let tags := with_racing_tags (git_tags w) in
  if has_tag name tags then
    (Val false,
     emit (GitTagCreate name message false)
       (set_git tags (git_commits w) (git_remotes w) w))
  else
    (Val true,
     emit (GitTagCreate name message true)
       (set_git (tags ++ [(name, message)]) (git_commits w) (git_remotes w) w)).

(** [Git.tag.message(name)] *)
Definition Git_tag_message (name : string) : M World (option string) :=
  fun w => (Val (mjoin (od_get name (git_tags w))), w).

(** [Git.tag.hash(name)] *)
Definition Git_tag_hash (name : string) : M World string :=
  fun w => (Val (tag_hash env name), w).

(** [Git.remote.list()] *)
Definition Git_remote_list : M World (list string) :=
  fun w => (Val (git_remotes w).*1, w).

(** [Git.remote.add(name, url)] *)
Definition Git_remote_add (name url : string) : M World unit := fun w =>
  (Val tt,
   emit (GitRemoteAdd name url)
     (set_git (git_tags w) (git_commits w) (git_remotes w ++ [(name, url)]) w)).

(** [Git.remote.url(name)] *)
Definition Git_remote_url (name : string) : M World (option string) :=
  fun w => (Val (od_get name (git_remotes w)), w).

(** [Git.push(remote)] and [Git.push(remote, tag)] *)
Definition Git_push (remote : Json) (tag : option string) : M World bool :=
  fun w =>
    let accepted := push_accepted env remote tag in
    (Val accepted, emit (GitPush remote tag accepted) w).

(** [RegistryClient(registry, component_type, name).push(url, tag, hash)] *)
Definition RegistryClient_push (registry : Json) (component_type : string)
    (name : SpecVal) (url : Json) (tag : VersionTag) (hash : string)
    : M World unit := fun w =>
  let error := registry_error env registry (VersionTag_str tag) hash in
  let w' := emit (RegistryPush registry component_type name url
                               (VersionTag_str tag) hash error) w in
  match error with
  | Some e => (Raise (RegistryError e), w')
  | None => (Val tt, w')
  end.

(** [try: block except RegistryError as e: handler] *)
Definition except_RegistryError {S} (block : M S unit)
    (handler : string -> M S unit) : M S unit := fun s =>
  match block s with
  | (Raise (RegistryError e), s') => handler e s'
  | r => r
  end.

(** ** Prompts *)

Definition name_prompt : string := "Name (only a-z,-): ".

(** The loop of [input_name]: one more pass per line that is not a single
    word; [more] bounds the passes by the lines left to read. *)
Fixpoint input_name_loop (name : string) (more : list string) : M World string :=
  if decide (1 < count_words false name) then
    print (name +:+ " is not a valid Component name. Try again.");;
    name' ← input name_prompt;
    match more with
    | [] => raise EOFError
    | _ :: more' => input_name_loop (strip name') more'
    end
  else mret name.

(** [input_name()] *)
Definition input_name : M World string :=
  name ← input name_prompt;
  w ← get;
  input_name_loop (strip name) (stdin w).

Definition remote_dict (name : string) (url : Json) : Json :=
  JObj [("name", JStr name); ("url", url)].

(** [input_git_remote()]: the name and the url of the remote. *)
Definition input_git_remote : M World (string * string) :=
  remote_url ← input "Git remote url: ";
  remote_name ← input "Git remote name: ";
  mret (strip remote_name, strip remote_url).

(** [input_registry()] *)
Definition input_registry : M World string :=
  registry ← input ("registry [" +:+ DEFAULT_REGISTRY +:+ "]: ");
  mret (if String.eqb (strip registry) "" then DEFAULT_REGISTRY
        else strip registry).

(** ** The commands *)

(** The body of the [with] block of [component_init]. *)
Definition init_body : M (Ctx * World) unit :=
  path ← get_path;
  when_ (negb (is_None path))
    (lift (print "Component already initialized.");;
     return_ (Ret_int 1));;
  name ← lift input_name;
  set_spec "name" (VJson (JStr name));;
  description ← lift (input "Description: ");
  set_spec "description" (VJson (JStr (strip description)));;
  version ← lift (input ("Version [" +:+ Version_str DEFAULT_VERSION +:+ "]: "));
  ver ← (if String.eqb (strip version) "" then mret DEFAULT_VERSION
         else Version_of (JStr (strip version)));
  set_spec "version" (VVersion ver);;
  lift Git_init;;
  set_path (path_join (cwd env) SPEC_FILENAME).

(** [component_init(component_type, spec_defaults)] *)
Definition component_init (component_type : string)
    (spec_defaults : option Spec) : World -> Outcome * World :=
  call (
    component_context component_type spec_defaults init_body;;
    Git_add (JStr SPEC_FILENAME);;
    return_ (Ret_int 0)).

(** The version check of [component_commit]: with tags already there, the
    new tag has to be greater than the greatest of them. *)
Definition check_version_incremented (version_tag : VersionTag)
    (current_version : Version) (prev_tags_raw : list string)
    : M (Ctx * World) unit :=
  match prev_tags_raw with
  | [] => mret tt
  | _ :: _ =>
      match parse_all prev_tags_raw ≫= py_max with
      | None => raise ParseError
      | Some last_tag =>
          when_ (VersionTag_le version_tag last_tag)
            (lift (print ("Version " +:+ Version_str current_version +:+
                          " not greater than " +:+
                          Version_str (version last_tag)));;
             return_ (Ret_int 1))
      end
  end.

(** [version if version is not None else spec['version']] *)
Definition version_to_commit {S} (version : option Version) (spec : Spec)
    : M S Version :=
  match version with
  | Some v => mret v
  | None =>
      v ← spec_getitem spec "version";
      match v with
      | VVersion ver => mret ver
      | VJson _ => raise TypeError
      end
  end.

(** The body of the [with] block of [component_commit]; it hands on the
    spec and the version tag, which the function uses after the block. *)
Definition commit_body (component_type : string) (version : option Version)
    : M (Ctx * World) (Spec * VersionTag) :=
  path ← get_path;
  when_ (is_None path)
    (lift (print "Component not initialized.");;
     return_ (Ret_int 1));;
  spec ← get_spec;
  when_ (is_None (od_get SPEC_IOP_DECLARATION_KEY spec))
    (lift (print "Component IOP declaration not added.");;
     return_ (Ret_int 1));;
  current_version ← version_to_commit version spec;
  name ← spec_getitem spec "name";
  let version_tag := mkVersionTag component_type name current_version in
  prev_tags_raw ← lift Git_tag_list;
  check_version_incremented version_tag current_version prev_tags_raw;;
  set_spec "version" (VVersion current_version);;
  spec ← get_spec;
  mret (spec, version_tag).

(** [component_commit] after its [with] block. *)
Definition commit_and_tag (message : string) (spec : Spec)
    (version_tag : VersionTag) : M World unit :=
  definition ← spec_getitem spec "definition";
  file ← sv_getitem definition "file";
  Git_add file;;
  Git_commit message false;;
  Git_tag_create (VersionTag_str version_tag) (Some message);;
  return_ (Ret_int 0).

(** [component_commit(component_type, message, version, spec_defaults)] *)
Definition component_commit (component_type message : string)
    (version : option Version) (spec_defaults : option Spec)
    : World -> Outcome * World :=
  call (
    r ← component_context component_type spec_defaults
           (commit_body component_type version);
    commit_and_tag message (fst r) (snd r)).

(** The remote and the registry of a component that was never published:
    the body of [if publish is None] in [component_publish]. *)
Definition choose_publish : M World Json :=
  remote_names ← Git_remote_list;
  remote ←
    match remote_names with
    | [] =>
        '(name, url) ← input_git_remote;
        Git_remote_add name url;;
        mret (remote_dict name (JStr url))
    | _ =>
        remote_name ← input ("Git remote [" +:+ join ", " remote_names +:+ "]: ");
        if String.eqb (strip remote_name) "" then
          '(name, url) ← input_git_remote;
          Git_remote_add name url;;
          mret (remote_dict name (JStr url))
        else
          url ← Git_remote_url (strip remote_name);
          mret (remote_dict (strip remote_name)
                  (match url with Some u => JStr u | None => JNull end))
    end;
  registry ← input_registry;
  mret (JObj [("remote", remote); ("registry", JStr registry)]).

(** The body of the [with] block of [component_publish]; it hands on the
    spec and the publish settings. *)
Definition publish_body : M (Ctx * World) (Spec * SpecVal) :=
  path ← get_path;
  when_ (is_None path)
    (lift (print "Component in not initialized.");;
     return_ (Ret_int 1));;
  spec ← get_spec;
  publish ←
    match od_get "publish" spec with
    | None | Some (VJson JNull) =>
        chosen ← lift choose_publish;
        mret (VJson chosen)
    | Some publish => mret publish
    end;
  remote ← sv_getitem publish "remote";
  remote_name ← getitem remote "name";
  pushed ← lift (Git_push remote_name None);
  when_ (negb pushed)
    (lift (print "Component could not be pushed to remote, possibly due to a conflict.");;
     return_ (Ret_int 1));;
  set_spec "publish" publish;;
  spec ← get_spec;
  mret (spec, publish).

(** The [try] block at the end of [component_publish] with its handler. *)
Definition notify_registry (component_type : string) (spec : Spec)
    (publish : SpecVal) (tag_to_publish : VersionTag) : M World unit :=
  except_RegistryError
    (registry ← sv_getitem publish "registry";
     name ← spec_getitem spec "name";
     remote ← sv_getitem publish "remote";
     url ← getitem remote "url";
     hash ← Git_tag_hash (VersionTag_str tag_to_publish);
     RegistryClient_push registry component_type name url tag_to_publish hash)
    (fun e => print ("Component could not be published: " +:+ e +:+ ".")).

(** [component_publish] after its [with] block. *)
Definition push_tag_and_notify (component_type : string) (spec : Spec)
    (publish : SpecVal) (tag_to_publish : VersionTag) : M World unit :=
  committed ← Git_commit "Update specification" true;
  tag_to_publish ←
    (if (committed : bool) then
       tag_message ← Git_tag_message (VersionTag_str tag_to_publish);
       let tag_to_publish := with_incremented_update_num tag_to_publish in
       Git_tag_create (VersionTag_str tag_to_publish) tag_message;;
       mret tag_to_publish
     else mret tag_to_publish);
  remote ← sv_getitem publish "remote";
  remote_name ← getitem remote "name";
  pushed ← Git_push remote_name (Some (VersionTag_str tag_to_publish));
  when_ (negb pushed)
    (print "Component version could not be pushed to remote, possibly due to a conflict.";;
     return_ (Ret_int 1));;
  notify_registry component_type spec publish tag_to_publish.

(** [component_publish] from its [with] block on, for the tag chosen. *)
Definition publish_tag (component_type : string) (spec_defaults : option Spec)
    (tag_to_publish : VersionTag) : M World unit :=
  r ← component_context component_type spec_defaults publish_body;
  push_tag_and_notify component_type (fst r) (snd r) tag_to_publish.

(** [component_publish(component_type, spec_defaults)] *)
Definition component_publish (component_type : string)
    (spec_defaults : option Spec) : World -> Outcome * World :=
  call (
    tags ← Git_tag_list;
    match tags with
    | [] =>
        print "Component does not have any versions to publish.";;
        return_ (Ret_int 1)
    | _ :: _ =>
        match parse_all tags ≫= py_max with
        | None => raise ParseError
        | Some tag_to_publish =>
            publish_tag component_type spec_defaults tag_to_publish
        end
    end).

End Commands.

(** ** What the properties of the commands speak about *)

(** The bodies the commands run inside a component context. *)
Inductive command_body `{VersionSyntax} (env : Env)
    : ∀ A, M (Ctx * World) A → Prop :=
| body_of_init : command_body env unit (init_body env)
| body_of_commit component_type version :
    command_body env (Spec * VersionTag) (commit_body component_type version)
| body_of_publish : command_body env (Spec * SpecVal) (publish_body env).

(** The version tag [component_commit] is about to create: of the version
    asked for, else of the version the spec holds. *)
Definition candidate_tag (component_type : string) (version : option Version)
    (spec : Spec) : option VersionTag :=
  current_version ← match version with
                     | Some v => Some v
                     | None =>
                         match od_get "version" spec with
                         | Some (VVersion v) => Some v
                         | _ => None
                         end
                     end;
  name ← od_get "name" spec;
  Some (mkVersionTag component_type name current_version).

(** The line [component_commit] prints when the version is not new. *)
Definition conflict_message `{VersionSyntax} (candidate last_tag : VersionTag)
    : string :=
  "Version " +:+ Version_str (version candidate) +:+ " not greater than " +:+
  Version_str (version last_tag).



(** What init leaves in the spec file of a fresh component. *)
Definition fresh_doc `{VersionSyntax} (component_type name description : string)
    (v : Version) : Json :=
  JObj [("name", JStr name);
        ("componentType", JStr component_type);
        ("description", JStr description);
        ("version", JStr (Version_str v))].

(** The question of init about the version. *)
Definition version_prompt `{VersionSyntax} : string :=
  "Version [" +:+ Version_str DEFAULT_VERSION +:+ "]: ".

(** A spec as the commands save it: the four keys every spec has, in the
    order of [component_spec_defaults], with the version as a [Version],
    then the other keys with their JSON values. *)
Definition saved_form (name component_type description : Json) (v : Version)
    (rest : list (string * Json)) : Spec :=
  [("name", VJson name);
   ("componentType", VJson component_type);
   ("description", VJson description);
   ("version", VVersion v)] ++ (prod_map id VJson <$> rest).

(** ** The project root

    [get_project_root_by_specification()] walks from the working directory
    upwards until a directory holds a specification file, and stops at [/].
    A directory is the list of its names from the innermost one outwards
    ([[]] is [/], the parent of [d :: ds] is [ds]); [has_spec d] is
    [os.path.exists(os.path.join(d, SPEC_FILENAME))]. *)
Fixpoint get_project_root_by_specification (has_spec : list string -> bool)
    (directory : list string) : option (list string) :=
  if has_spec directory then Some directory
  else match directory with
       | [] => None
       | _ :: parent => get_project_root_by_specification has_spec parent
       end.

(** [specification_filename()]: the file is a name in its directory. *)
Definition specification_filename (has_spec : list string -> bool)
    (cwd : list string) : option (list string) :=
  match get_project_root_by_specification has_spec cwd with
  | None => None
  | Some project_root => Some (SPEC_FILENAME :: project_root)
  end.

(** The calls of the registry among the events of a run. *)
Definition is_registry_push (e : Event) : bool :=
  match e with
  | RegistryPush _ _ _ _ _ _ _ => true
  | _ => false
  end.

Definition no_registry_call (evs : list Event) : Prop :=
  Forall (fun e => is_registry_push e = false) evs.

(** A block that only adds events to the trace, none of them a call of the
    registry, however it ends. *)
Definition quiet {S A} (world : S -> World) (m : M S A) : Prop :=
  ∀ s, ∃ evs, trace (world (m s).2) = trace (world s) ++ evs ∧
              no_registry_call evs.

End CLI.

(** * Declarations: [src/lib/declarations.py] *)

Module Declarations.

(** The values [serialize] builds: strings, tuples, and dicts with their
    items in insertion order. *)
Inductive PyVal : Type :=
| PStr (s : string)
| PTuple (items : list PyVal)
| PDict (items : list (string * PyVal)).

(** The types of declarations: [MezuriBaseType(data_type)] (of which [Int],
    [Bool], [Double] and [String] are instances), [List(element_type)] and
    [Dict(definition)]. *)
Inductive MezuriType : Type :=
| MezuriBaseType (data_type : string)
| List (element_type : MezuriType)
| Dict (definition : list (string * MezuriType)).

Definition Int : MezuriType := MezuriBaseType "INT".
Definition Bool : MezuriType := MezuriBaseType "BOOL".
Definition Double : MezuriType := MezuriBaseType "DOUBLE".
Definition String : MezuriType := MezuriBaseType "STRING".

(** [serialize()] of the three classes. *)
Fixpoint serialize (self : MezuriType) : PyVal :=
  match self with
  | MezuriBaseType data_type => PStr data_type
  | List element_type => PTuple [PStr "LIST"; serialize element_type]
  | Dict definition =>
      PTuple [PStr "DICT";
              PDict (map (fun kv => (fst kv, serialize (snd kv))) definition)]
  end.

Record InterfaceProxy : Type := mkInterfaceProxy {
  interface_registry : string;
  interface_name : string;
  version_str : string
}.

Definition InterfaceProxy_serialize (self : InterfaceProxy) : PyVal :=
  PTuple [PStr "INTERFACE";
          PTuple [PStr (interface_registry self); PStr (interface_name self);
                  PStr (version_str self)]].

(** What a declaration gives as its type: a type or an interface. *)
Inductive IOType : Type :=
| OfType (t : MezuriType)
| OfInterface (p : InterfaceProxy).

Definition type_serialize (type_ : IOType) : PyVal :=
  match type_ with
  | OfType t => serialize t
  | OfInterface p => InterfaceProxy_serialize p
  end.

(** ** The decorators *)

Definition PARAM_METHOD_DECLARATION_ATTR : string := "__mezuri_param_method__".
Definition IO_METHOD_DECLARATION_ATTR : string := "__mezuri_io_method__".
Definition DECLARATION_ATTR_INPUT_KEY : string := "__input__".
Definition DECLARATION_ATTR_OUTPUT_KEY : string := "__output__".
Definition DECLARATION_ATTR_PARAMETER_KEY : string := "__parameter__".

(** The three subclasses of [AbstractIOP]. *)
Inductive IOP : Type := Input | Output | Parameter_.

#[export] Instance IOP_eq_dec : EqDecision IOP.
Proof. solve_decision. Defined.

Definition _attr_key (c : IOP) : string :=
  match c with
  | Input | Output => IO_METHOD_DECLARATION_ATTR
  | Parameter_ => PARAM_METHOD_DECLARATION_ATTR
  end.

Definition _attr_io_key (c : IOP) : string :=
  match c with
  | Input => DECLARATION_ATTR_INPUT_KEY
  | Output => DECLARATION_ATTR_OUTPUT_KEY
  | Parameter_ => DECLARATION_ATTR_PARAMETER_KEY
  end.

Record AbstractIOP : Type := mkIOP {
  cls : IOP;
  name : string;
  type_ : IOType
}.

(** The attributes a method is given, by their names, hold [True] or a
    tuple of declarations. *)
Inductive Attr : Type :=
| ATrue
| ADeclarations (io : list (string * IOType)).

(** [AbstractIOP.__call__(self, method)]; [None] is the [TypeError] of
    [True + tuple], when the attribute of the declarations holds [True]. *)
Definition AbstractIOP_call (self : AbstractIOP) (method : gmap string Attr)
    : option (gmap string Attr) :=
  let method := <[_attr_key (cls self) := ATrue]> method in
  match method !! _attr_io_key (cls self) with
  | None =>
      Some (<[_attr_io_key (cls self) :=
                ADeclarations ([] ++ [(name self, type_ self)])]> method)
  | Some (ADeclarations io) =>
      Some (<[_attr_io_key (cls self) :=
                ADeclarations (io ++ [(name self, type_ self)])]> method)
  | Some ATrue => None
  end.

(** A method under its decorators, in the order they are written: the one
    written last, next to the [def], is applied first. *)
Definition decorate (decorators : list AbstractIOP)
    (method : gmap string Attr) : option (gmap string Attr) :=
  foldr (fun d m => m ≫= AbstractIOP_call d) (Some method) decorators.

(** The declarations of one kind among the decorators, as written. *)
Definition declared (c : IOP) (decorators : list AbstractIOP)
    : list (string * IOType) :=
  (fun d => (name d, type_ d)) <$> filter (fun d => cls d = c) decorators.

(** What the attribute of the declarations of a kind is to hold: nothing
    when there is none, else their tuple, the last written first. *)
Definition recorded (c : IOP) (decorators : list AbstractIOP) : option Attr :=
  match declared c decorators with
  | [] => None
  | io => Some (ADeclarations (reverse io))
  end.

End Declarations.

(** * A component to run the commands on *)

Module Example.
Import VersionModel CLI.

(** A text for versions, to run the commands with: dotted decimals,
    [major.minor.patch], with the update counter as a fourth number when it
    is not 0. *)
Definition digits (n : N) : string := NilEmpty.string_of_uint (N.to_uint n).

Definition number (s : string) : option N :=
  match s with
  | EmptyString => None
  | _ => N.of_uint <$> NilEmpty.uint_of_string s
  end.

Definition dot : ascii := "."%char.

Definition dotted_str (v : Version) : string :=
  digits (major v) +:+ "." +:+ digits (minor v) +:+ "." +:+ digits (patch v) +:+
  (if (update_num v =? 0)%N then "" else "." +:+ digits (update_num v)).

Definition dotted_parse (s : string) : option Version :=
  match split_on dot s with
  | [a; b; c] =>
      ma ← number a; mi ← number b; pa ← number c;
      Some (mkVersion ma mi pa 0)
  | [a; b; c; u] =>
      ma ← number a; mi ← number b; pa ← number c; up ← number u;
      Some (mkVersion ma mi pa up)
  | _ => None
  end.

#[export] Instance dotted : VersionSyntax :=
  {| Version_parse := dotted_parse; Version_str := dotted_str |}.

Definition v090 : Version := mkVersion 0 9 0 0.
Definition v100 : Version := mkVersion 1 0 0 0.
Definition v110 : Version := mkVersion 1 1 0 0.

(** The spec file of a source named [demo], at version 1.0.0, with its
    declaration and definition generated. *)
Definition demo_doc : Json :=
  JObj [("name", JStr "demo");
        ("componentType", JStr "sources");
        ("description", JStr "A demo source");
        ("version", JStr "1.0.0");
        ("iopDeclaration", JObj []);
        ("dependencies", JArr []);
        ("definition", JObj [("file", JStr "source.py"); ("class", JStr "Demo")])].

Definition demo_path : string := "/work/demo/specification.json".

(** The same spec file with the remote and the registry recorded. *)
Definition demo_publish : Json :=
  JObj [("remote", JObj [("name", JStr "origin"); ("url", JStr "R")]);
        ("registry", JStr "http://registry.mezuri.org")].

Definition published_doc : Json :=
  match demo_doc with
  | JObj fields => JObj (fields ++ [("publish", demo_publish)])
  | j => j
  end.


Definition world_of (file : option (string * FileContent))
    (tags : list (string * option string)) : World :=
  mkWorld file tags [] [("origin", "R")] [] [].

(** A directory with no spec file above it. *)
Definition empty_world : World := world_of None [].

(** The component with version 1.0.0 committed. *)
Definition demo_world : World :=
  world_of (Some (demo_path, Doc demo_doc))
           [("mezuri/sources/1.0.0", Some "first version")].

Definition published_world : World :=
  world_of (Some (demo_path, Doc published_doc))
           [("mezuri/sources/1.0.0", Some "first version")].





(** The component with a declaration and no definition. *)
Definition declared_doc : Json :=
  JObj [("name", JStr "demo");
        ("componentType", JStr "sources");
        ("description", JStr "A demo source");
        ("version", JStr "1.0.0");
        ("iopDeclaration", JObj [])].

Definition declared_world : World :=
  world_of (Some (demo_path, Doc declared_doc))
           [("mezuri/sources/1.0.0", Some "first version")].

(** A directory with no spec file above it, and what is typed. *)
Definition fresh_world (typed : list string) : World :=
  mkWorld None [] [] [] typed [].

(** Everything goes well: commits are made, pushes accepted, the registry
    accepts, nobody else creates tags. *)
Definition calm : Env :=
  mkEnv "/work/demo" (fun _ => true) (fun _ _ => true) (fun _ => "H1")
        (fun _ _ _ => None) [].

(** Another actor creates the tag of version 1.1.0 while we commit it. *)
Definition racing : Env :=
  mkEnv "/work/demo" (fun _ => true) (fun _ _ => true) (fun _ => "H1")
        (fun _ _ _ => None) [("mezuri/sources/1.1.0", Some "theirs")].

(** The registry refuses the registration; nothing is left to commit. *)
Definition registry_down : Env :=
  mkEnv "/work/demo" (fun _ => false) (fun _ _ => true) (fun _ => "H1")
        (fun _ _ _ => Some "Remote repository version does not match") [].

(** The contexts the example spec files load as. *)
Definition loaded (w : World) : Ctx :=
  match (calculate_component_context "sources" None w).1 with
  | Val ctx => ctx
  | _ => mkCtx [] None
  end.

Definition tag100 : VersionTag := mkVersionTag "sources" (VJson JNull) v100.

Definition demo_tag : VersionTag := mkVersionTag "sources" (VJson (JStr "demo")) v100.

End Example.

(** * Properties of the registry *)

Module RegistryFacts.
Import Registry.

Lemma occurrences_app v l1 l2 :
  occurrences v (l1 ++ l2) = occurrences v l1 + occurrences v l2.
Proof. unfold occurrences. by rewrite filter_app, length_app. Qed.

Lemma occurrences_absent v (l : list string) : v ∉ l → occurrences v l = 0.
Proof.
  unfold occurrences. induction l as [|x l IH]; intros Hv; [done|].
  apply not_elem_of_cons in Hv as [Hx Hl].
  rewrite filter_cons. destruct (decide (x = v)); [congruence|auto].
Qed.

Lemma occurrences_present v (l : list string) : v ∈ l ↔ 0 < occurrences v l.
Proof.
  unfold occurrences. induction l as [|x l IH].
  - split; [by intros ?%elem_of_nil | simpl; lia].
  - rewrite filter_cons, elem_of_cons. destruct (decide (x = v)); simpl.
    + split; [lia | auto].
    + rewrite <- IH. split; [intros [?|?]; [congruence|done] | auto].
Qed.

Lemma records_of_app name v l1 l2 :
  records_of name v (l1 ++ l2) = records_of name v l1 ++ records_of name v l2.
Proof. unfold records_of. by rewrite filter_app. Qed.

Lemma tight_consistent s : store_tight s → store_consistent s.
Proof.
  intros Ht name op Hop v. destruct (Ht name v) as [Hle Heq].
  rewrite Hop in Heq. rewrite occurrences_present. lia.
Qed.

Lemma tight_empty : store_tight empty_store.
Proof. intros name v. simpl. rewrite lookup_empty. split; simpl; lia. Qed.

(** The view of a registration whose version is new to the operator: the
    fetch decides. *)
Lemma post_fresh_version remotes s name op version tag hash :
  operators s !! name = Some op →
  version ∉ op_versions op →
  OperatorVersionListAPI_post remotes name (version_args version tag hash) s =
  finish
    (spec ← fetch_remote_spec remotes (op_gitRemoteUrl op) hash tag;
     Ok (201, BVersion (mkOperatorVersion version hash name spec),
         mkStore
           (<[name := mkOperator (op_name op) (op_gitRemoteUrl op)
                        (op_versions op ++ [version])]> (operators s))
           (operator_versions s ++ [mkOperatorVersion version hash name spec])))
    s.
Proof.
  intros Hop Hfresh. unfold OperatorVersionListAPI_post. rewrite Hop. simpl.
  by destruct (decide (version ∈ op_versions op)).
Qed.

(** C1 (as amended).  A registration of a version new to an existing
    operator answers 201 exactly when the remote's tag resolves to the
    claimed hash and the spec file of that revision is readable JSON; it then
    has appended the version to the operator's list and one record, holding
    that spec, to the records.  When the tag does not resolve to the claimed
    hash the answer is 400 and the store is as before. *)
Theorem registerVersion_verified remotes s name op version tag hash :
  operators s !! name = Some op →
  version ∉ op_versions op →
  let r := OperatorVersionListAPI_post remotes name (version_args version tag hash) s in
  (status_of r.1 = Some 201 ↔
     resolved_hash remotes (op_gitRemoteUrl op) tag = Some hash ∧
     is_Some (spec_at remotes (op_gitRemoteUrl op) hash)) ∧
  (status_of r.1 = Some 201 →
     ∃ spec, spec_at remotes (op_gitRemoteUrl op) hash = Some spec ∧
       operators r.2 =
         <[name := mkOperator (op_name op) (op_gitRemoteUrl op)
                     (op_versions op ++ [version])]> (operators s) ∧
       operator_versions r.2 =
         operator_versions s ++ [mkOperatorVersion version hash name spec]) ∧
  (resolved_hash remotes (op_gitRemoteUrl op) tag ≠ Some hash →
     status_of r.1 = Some 400 ∧ r.2 = s).
Proof.
  intros Hop Hfresh r. subst r.
  rewrite (post_fresh_version _ _ _ _ _ _ _ Hop Hfresh).
  unfold fetch_remote_spec, resolved_hash, spec_at.
  destruct (remotes (op_gitRemoteUrl op)) as [repo|]; simpl.
  - destruct (decide (repo_rev_parse repo tag = Some hash)) as [Hh|Hh]; simpl.
    + destruct (working_spec repo hash) as [| |j]; simpl.
      * split_and!; [split; [done|intros [_ [? ?]]; done]|done|done].
      * split_and!; [split; [done|intros [_ [? ?]]; done]|done|done].
      * split_and!; [by split; eauto|by eauto|done].
    + split_and!; [split; [done|by intros [? _]]|done|done].
  - split_and!; [split; [done|by intros [? _]]|done|done].
Qed.

Lemma registerVersion_verified_witness :
  status_of (OperatorVersionListAPI_post demo_remotes "demo"
               (version_args "1.0.0" "mezuri/sources/1.0.0" "H1") demo_store).1
    = Some 201 ∧
  status_of (OperatorVersionListAPI_post demo_remotes "demo"
               (version_args "1.0.0" "mezuri/sources/1.0.0" "H0") demo_store).1
    = Some 400.
Proof.
  assert (Hop : operators demo_store !! "demo" = Some demo_operator) by done.
  assert (Hfresh : "1.0.0" ∉ op_versions demo_operator) by apply not_elem_of_nil.
  split.
  - apply (registerVersion_verified demo_remotes demo_store "demo" demo_operator
             "1.0.0" "mezuri/sources/1.0.0" "H1" Hop Hfresh).
    split; [reflexivity | by eexists].
  - apply (registerVersion_verified demo_remotes demo_store "demo" demo_operator
             "1.0.0" "mezuri/sources/1.0.0" "H0" Hop Hfresh).
    discriminate.
Defined.

(** C1 (as stated) fails: the tag [mezuri/sources/1.1.0] of the remote
    resolves to the claimed hash [H2], yet the registration is not answered
    with 201, because that revision has no spec file. *)
Lemma registerVersion_equal_hash_not_enough :
  operators demo_store !! "demo" = Some demo_operator ∧
  ("1.1.0" ∉ op_versions demo_operator) ∧
  ¬ (status_of (OperatorVersionListAPI_post demo_remotes "demo"
                  (version_args "1.1.0" "mezuri/sources/1.1.0" "H2") demo_store).1
       = Some 201 ↔
     resolved_hash demo_remotes (op_gitRemoteUrl demo_operator)
       "mezuri/sources/1.1.0" = Some "H2").
Proof.
  split_and!; [done | apply not_elem_of_nil |].
  intros [_ H]. specialize (H eq_refl). discriminate.
Qed.

(** C4.  When the clone and the hash check succeed and the spec file of the
    claimed revision is missing or is not JSON, the view raises: the client
    gets no 4xx answer with an error body, the exception is handled by
    nobody.  The store is left as it was. *)
Theorem unreadable_spec_is_unhandled remotes s name op version tag hash repo :
  operators s !! name = Some op →
  version ∉ op_versions op →
  remotes (op_gitRemoteUrl op) = Some repo →
  repo_rev_parse repo tag = Some hash →
  working_spec repo hash = FileMissing ∨ working_spec repo hash = FileInvalid →
  ∃ e, OperatorVersionListAPI_post remotes name (version_args version tag hash) s
       = (Unhandled e, s).
Proof.
  intros Hop Hfresh Hrepo Hhash Hspec.
  rewrite (post_fresh_version _ _ _ _ _ _ _ Hop Hfresh).
  unfold fetch_remote_spec. rewrite Hrepo.
  destruct (decide (repo_rev_parse repo tag = Some hash)); [|done].
  destruct Hspec as [-> | ->]; by eexists.
Qed.

Lemma unreadable_spec_is_unhandled_witness :
  ∃ e, OperatorVersionListAPI_post demo_remotes "demo"
         (version_args "1.1.0" "mezuri/sources/1.1.0" "H2") demo_store
       = (Unhandled e, demo_store).
Proof.
  apply (unreadable_spec_is_unhandled demo_remotes demo_store "demo"
           demo_operator "1.1.0" "mezuri/sources/1.1.0" "H2" demo_repo).
  - reflexivity.
  - apply not_elem_of_nil.
  - reflexivity.
  - reflexivity.
  - left. reflexivity.
Defined.

(** C6.  Registering an operator under a name that is taken answers 409 and
    leaves the store, hence the operator's remote url and version list, as
    they were; under a free name it answers 201 and stores the operator with
    an empty version list, next to the others. *)
Theorem registerOperator_once s name url :
  let r := OperatorListAPI_post (operator_args name url) s in
  (∀ op, operators s !! name = Some op →
     status_of r.1 = Some 409 ∧ r.2 = s ∧ operators r.2 !! name = Some op) ∧
  (operators s !! name = None →
     status_of r.1 = Some 201 ∧
     operators r.2 !! name = Some (mkOperator name url []) ∧
     (∀ other, other ≠ name → operators r.2 !! other = operators s !! other) ∧
     operator_versions r.2 = operator_versions s).
Proof.
  intros r. subst r. unfold OperatorListAPI_post. simpl. split.
  - intros op Hop. by rewrite Hop.
  - intros Hnone. rewrite Hnone. simpl. split_and!; [done| |..|done].
    + apply lookup_insert_eq.
    + intros other Hne. by apply lookup_insert_ne.
Qed.

Lemma registerOperator_once_witness :
  status_of (OperatorListAPI_post (operator_args "demo" "R2") demo_store).1 = Some 409 ∧
  status_of (OperatorListAPI_post (operator_args "other" "R2") demo_store).1 = Some 201.
Proof.
  split.
  - apply (proj1 (registerOperator_once demo_store "demo" "R2") demo_operator).
    reflexivity.
  - apply (proj2 (registerOperator_once demo_store "other" "R2")).
    reflexivity.
Defined.

(** What a registration answered with 201 has stored. *)
Lemma registerVersion_verified_parts remotes s name op version tag hash :
  operators s !! name = Some op →
  version ∉ op_versions op →
  status_of (OperatorVersionListAPI_post remotes name
               (version_args version tag hash) s).1 = Some 201 →
  ∃ spec, spec_at remotes (op_gitRemoteUrl op) hash = Some spec ∧
    operators (OperatorVersionListAPI_post remotes name
                 (version_args version tag hash) s).2 =
      <[name := mkOperator (op_name op) (op_gitRemoteUrl op)
                  (op_versions op ++ [version])]> (operators s) ∧
    operator_versions (OperatorVersionListAPI_post remotes name
                         (version_args version tag hash) s).2 =
      operator_versions s ++ [mkOperatorVersion version hash name spec].
Proof.
  intros Hop Hfresh.
  rewrite (post_fresh_version _ _ _ _ _ _ _ Hop Hfresh).
  unfold fetch_remote_spec, spec_at.
  destruct (remotes (op_gitRemoteUrl op)) as [repo|]; simpl; [|done].
  destruct (decide (repo_rev_parse repo tag = Some hash)); simpl; [|done].
  destruct (working_spec repo hash) as [| |j]; simpl; [done|done|].
  intros _. by exists j.
Qed.

(** Every view keeps the lists and the records in step. *)
Lemma handle_tight remotes r s : store_tight s → store_tight (handle remotes r s).2.
Proof.
  intros Ht. destruct r as [|args|name|name|name args|name version]; simpl.
  - done.
  - unfold OperatorListAPI_post.
    destruct args as [[name|] [url|]]; simpl; try done.
    destruct (operators s !! name) as [op|] eqn:Hop; simpl; [done|].
    intros n v. destruct (Ht n v) as [Hle Heq]. simpl. split; [done|].
    rewrite lookup_insert. destruct (decide (name = n)) as [->|Hne]; [|done].
    by rewrite Heq, Hop.
  - unfold OperatorAPI_get. by destruct (operators s !! name).
  - unfold OperatorVersionListAPI_get. by destruct (operators s !! name).
  - unfold OperatorVersionListAPI_post.
    destruct (operators s !! name) as [op|] eqn:Hop; [|done].
    destruct args as [[version|] [tag|] [hash|]]; simpl; try done.
    destruct (decide (version ∈ op_versions op)) as [Hin|Hfresh]; simpl; [done|].
    destruct (fetch_remote_spec remotes (op_gitRemoteUrl op) hash tag)
      as [spec|st e|e]; simpl; [|done..].
    intros n v. destruct (Ht n v) as [Hle Heq]. simpl.
    rewrite records_of_app, length_app, lookup_insert.
    unfold records_of at 2 4. rewrite filter_cons, filter_nil. simpl.
    destruct (decide (name = n)) as [->|Hne].
    + rewrite Hop in Heq. simpl. rewrite occurrences_app.
      unfold occurrences at 2. rewrite filter_cons, filter_nil.
      destruct (decide (version = v)) as [->|Hv].
      * rewrite (occurrences_absent _ _ Hfresh) in Heq |- *.
        rewrite decide_True by done. simpl. lia.
      * rewrite decide_False by (intros [_ ?]; done). simpl. lia.
    + rewrite decide_False by (intros [? _]; done). simpl. lia.
  - unfold OperatorVersionAPI_get. destruct (operators s !! name); [|done].
    by destruct (find_version name version (operator_versions s)).
Qed.

Lemma serve_tight reqs s : store_tight s → store_tight (serve reqs s).
Proof.
  revert s. induction reqs as [|[remotes r] reqs IH]; intros s Ht; [done|].
  simpl. apply IH. by apply handle_tight.
Qed.

(** C10.  Whatever requests the registry has served since it started with
    nothing stored, and whatever the remotes held when it served them: no
    operator's list has a version twice, and a version is in an operator's
    list exactly when the records hold one record of that operator and
    version. *)
Theorem store_always_consistent (reqs : list (Remotes * Request)) :
  store_consistent (serve reqs empty_store).
Proof. apply tight_consistent, serve_tight, tight_empty. Qed.

End RegistryFacts.

(** * Properties of versions and tags *)

Module VersionFacts.
Import VersionModel.

(** ** The order of versions *)

Lemma lex_opp c1 c2 : lex (CompOpp c1) (CompOpp c2) = CompOpp (lex c1 c2).
Proof. by destruct c1. Qed.

Lemma Version_compare_antisym a b :
  Version_compare b a = CompOpp (Version_compare a b).
Proof.
  unfold Version_compare.
  rewrite (N.compare_antisym (major a)), (N.compare_antisym (minor a)),
    (N.compare_antisym (patch a)), (N.compare_antisym (update_num a)).
  by rewrite !lex_opp.
Qed.

Lemma Version_compare_refl a : Version_compare a a = Eq.
Proof. unfold Version_compare. by rewrite !N.compare_refl. Qed.

Lemma Version_compare_Eq a b : Version_compare a b = Eq → a = b.
Proof.
  destruct a, b. unfold Version_compare, lex. simpl.
  repeat match goal with
         | |- context [(?x ?= ?y)%N] =>
             destruct (N.compare_spec x y); try done
         end.
  intros _. by subst.
Qed.

Ltac compare_cases :=
  repeat match goal with
         | |- context [(?x ?= ?y)%N] =>
             destruct (N.compare_spec x y); subst; cbn; try done; try lia
         end.

Lemma Version_compare_Lt_trans a b c :
  Version_compare a b = Lt → Version_compare b c = Lt → Version_compare a c = Lt.
Proof.
  destruct a, b, c. unfold Version_compare, lex. simpl. compare_cases.
Qed.

Lemma Version_lt_le a b : Version_lt a b = negb (Version_le b a).
Proof.
  unfold Version_lt, Version_le. rewrite (Version_compare_antisym a b).
  by destruct (Version_compare a b).
Qed.



Lemma Version_lt_trans a b c :
  Version_lt a b = true → Version_lt b c = true → Version_lt a c = true.
Proof.
  unfold Version_lt. intros Hab Hbc.
  destruct (Version_compare a b) eqn:E1; try done.
  destruct (Version_compare b c) eqn:E2; try done.
  by rewrite (Version_compare_Lt_trans _ _ _ E1 E2).
Qed.

(** At most: below or the same. *)
Lemma Version_le_cases a b :
  Version_le a b = true ↔ Version_lt a b = true ∨ a = b.
Proof.
  unfold Version_le, Version_lt. split.
  - destruct (Version_compare a b) eqn:E; try done; [|by left].
    right. by apply Version_compare_Eq.
  - intros [H| ->]; [by destruct (Version_compare a b)|].
    by rewrite Version_compare_refl.
Qed.


Lemma Version_lt_le_trans a b c :
  Version_lt a b = true → Version_le b c = true → Version_lt a c = true.
Proof.
  rewrite Version_le_cases. intros Hab [Hbc| ->]; [|done].
  eapply Version_lt_trans; eauto.
Qed.

Lemma Version_le_lt_trans a b c :
  Version_le a b = true → Version_lt b c = true → Version_lt a c = true.
Proof.
  rewrite Version_le_cases. intros [Hab| ->] Hbc; [|done].
  eapply Version_lt_trans; eauto.
Qed.

Lemma Version_le_total a b : Version_le a b = true ∨ Version_le b a = true.
Proof.
  destruct (Version_le b a) eqn:E; [by right|]. left.
  rewrite Version_le_cases. left. by rewrite Version_lt_le, E.
Qed.

(** ** The latest tag *)

Lemma max_from_app first rest t :
  max_from first (rest ++ [t]) =
    if VersionTag_lt (max_from first rest) t then t else max_from first rest.
Proof. unfold max_from. by rewrite fold_left_app. Qed.






(** ** Tags and their names *)



Section Tags.
Context {syntax : VersionSyntax}.



End Tags.

End VersionFacts.

(** * Properties of the commands *)

Module CLIFacts.
Import VersionModel CLI.

(** ** Running a block step by step *)

Lemma bind_val {S A B} (m : M S A) (k : A → M S B) s a s' :
  m s = (Val a, s') → (m ≫= k) s = k a s'.
Proof. intros H. unfold mbind, M_bind. by rewrite H. Qed.

Lemma bind_return {S A B} (m : M S A) (k : A → M S B) s r s' :
  m s = (Return r, s') → (m ≫= k) s = (Return r, s').
Proof. intros H. unfold mbind, M_bind. by rewrite H. Qed.

Lemma bind_raise {S A B} (m : M S A) (k : A → M S B) s e s' :
  m s = (Raise e, s') → (m ≫= k) s = (Raise e, s').
Proof. intros H. unfold mbind, M_bind. by rewrite H. Qed.

(** A block that ends gave a value to what follows it, or left early. *)
Lemma bind_inv {S A B} (m : M S A) (k : A → M S B) s r s2 :
  (m ≫= k) s = (r, s2) →
  (∃ a s1, m s = (Val a, s1) ∧ k a s1 = (r, s2)) ∨
  (∃ x, m s = (Return x, s2) ∧ r = Return x) ∨
  (∃ e, m s = (Raise e, s2) ∧ r = Raise e).
Proof.
  unfold mbind, M_bind. destruct (m s) as [[a|x|e] s1]; intros H.
  - left. eauto.
  - right. left. inversion H. eauto.
  - right. right. inversion H. eauto.
Qed.

(** ** Ordered dicts *)

Lemma od_get_set {V} k k' (v : V) d :
  od_get k (od_set k' v d) = if String.eqb k k' then Some v else od_get k d.
Proof.
  induction d as [|[k1 v1] d IH]; simpl.
  - by destruct (String.eqb k k').
  - destruct (String.eqb k' k1) eqn:E1; simpl.
    + apply String.eqb_eq in E1 as ->. by destruct (String.eqb k k1).
    + rewrite IH. destruct (String.eqb k k1) eqn:E2; [|done].
      apply String.eqb_eq in E2 as ->.
      by rewrite String.eqb_sym, E1.
Qed.

Lemma od_get_None {V} k (d : odict V) : od_get k d = None ↔ k ∉ d.*1.
Proof.
  induction d as [|[k1 v1] d IH]; simpl.
  - split; [intros _; apply not_elem_of_nil | done].
  - rewrite not_elem_of_cons, <- IH.
    destruct (String.eqb k k1) eqn:E.
    + apply String.eqb_eq in E. split; [done | by intros [? _]].
    + apply String.eqb_neq in E. split; [done | by intros [_ ?]].
Qed.

Lemma od_set_keys {V} k (v : V) d :
  (od_set k v d).*1 = if decide (k ∈ d.*1) then d.*1 else d.*1 ++ [k].
Proof.
  induction d as [|[k1 v1] d IH].
  - simpl. destruct (decide (k ∈ [])) as [H|H]; [by apply elem_of_nil in H | done].
  - cbn [od_set fmap list_fmap fst].
    destruct (String.eqb k k1) eqn:E.
    + apply String.eqb_eq in E as ->.
      destruct (decide (k1 ∈ k1 :: d.*1)) as [H|H]; [done | destruct H; left].
    + apply String.eqb_neq in E. cbn [fmap list_fmap fst]. rewrite IH.
      destruct (decide (k ∈ d.*1)) as [H|H];
        destruct (decide (k ∈ k1 :: d.*1)) as [H'|H']; try done.
      * destruct H'. by right.
      * apply elem_of_cons in H' as [?|?]; done.
Qed.

Lemma od_set_NoDup {V} k (v : V) d : NoDup d.*1 → NoDup (od_set k v d).*1.
Proof.
  intros Hd. rewrite od_set_keys. destruct (decide (k ∈ d.*1)); [done|].
  apply NoDup_app. split_and!; [done| |apply NoDup_singleton].
  intros x Hx Hk%list_elem_of_singleton. by subst.
Qed.

Lemma od_update_NoDup {V} (d : odict V) ps : NoDup d.*1 → NoDup (od_update d ps).*1.
Proof.
  unfold od_update. revert d. induction ps as [|[k v] ps IH]; intros d Hd; [done|].
  simpl. apply IH. by apply od_set_NoDup.
Qed.

(** After [d.update(pairs)], with no key twice among the pairs, a key of the
    pairs has their value and any other key the one it had. *)
Lemma od_get_update {V} k (d : odict V) ps :
  NoDup ps.*1 →
  od_get k (od_update d ps) =
    match od_get k ps with
    | Some v => Some v
    | None => od_get k d
    end.
Proof.
  unfold od_update. revert d.
  induction ps as [|[k1 v1] ps IH]; intros d Hps; [done|].
  simpl in *. apply NoDup_cons in Hps as [Hk1 Hps].
  rewrite IH by done. rewrite od_get_set.
  destruct (String.eqb k k1) eqn:E.
  - apply String.eqb_eq in E as ->.
    apply od_get_None in Hk1. by rewrite Hk1.
  - done.
Qed.

Lemma od_get_fmap {V W} (f : V → W) k (d : odict V) :
  od_get k (prod_map id f <$> d) = f <$> od_get k d.
Proof.
  induction d as [|[k1 v1] d IH]; simpl; [done|].
  by destruct (String.eqb k k1).
Qed.

Lemma od_keys_fmap {V W} (f : V → W) (d : odict V) :
  (prod_map id f <$> d).*1 = d.*1.
Proof. induction d as [|[k1 v1] d IH]; [done|]. by cbn; f_equal. Qed.

(** ** Blocks that leave the spec file's path alone *)

(** A block of a [with] body keeps the path [p] when, started in a context
    that has it, it ends in one that has it, however it ends. *)
Definition keeps_path {A} (p : string) (m : M (Ctx * World) A) : Prop :=
  ∀ c w r c' w', ctx_path c = Some p → m (c, w) = (r, (c', w')) →
                 ctx_path c' = Some p.

Lemma keeps_path_bind {A B} p (m : M (Ctx * World) A) (k : A → M (Ctx * World) B) :
  keeps_path p m → (∀ a, keeps_path p (k a)) → keeps_path p (m ≫= k).
Proof.
  intros Hm Hk c w r c' w' Hp H.
  apply bind_inv in H as [(a & [c1 w1] & H1 & H2)|[(x & H1 & _)|(e & H1 & _)]].
  - eapply Hk; [|exact H2]. eapply Hm; eauto.
  - eapply Hm; eauto.
  - eapply Hm; eauto.
Qed.

Lemma keeps_path_lift {A} p (m : M World A) : keeps_path p (lift m).
Proof.
  intros c w r c' w' Hp H. unfold lift in H. simpl in H.
  destruct (m w) as [r1 w1]. by inversion H; subst.
Qed.

Lemma keeps_path_pure {A} p (m : M (Ctx * World) A) :
  (∀ s, (m s).2 = s) → keeps_path p m.
Proof.
  intros Hm c w r c' w' Hp H. specialize (Hm (c, w)). rewrite H in Hm.
  simpl in Hm. by inversion Hm; subst.
Qed.

Lemma keeps_path_set_spec p k v : keeps_path p (set_spec k v).
Proof. intros c w r c' w' Hp H. unfold set_spec in H. by inversion H; subst. Qed.

Lemma keeps_path_when p cond (m : M (Ctx * World) unit) :
  keeps_path p m → keeps_path p (when_ cond m).
Proof.
  intros Hm. destruct cond; simpl; [done|]. by apply keeps_path_pure.
Qed.

Lemma getitem_pure {S} j k (s : S) : (getitem j k s).2 = s.
Proof.
  unfold getitem. destruct j; try done. by destruct (od_get k fields).
Qed.

Lemma sv_getitem_pure {S} v k (s : S) : (sv_getitem v k s).2 = s.
Proof. destruct v; [apply getitem_pure|done]. Qed.

Lemma spec_getitem_pure {S} spec k (s : S) : (spec_getitem spec k s).2 = s.
Proof. unfold spec_getitem. by destruct (od_get k spec). Qed.

Section Facts.
Context {syntax : VersionSyntax}.

Lemma Version_of_pure {S} j (s : S) : (Version_of j s).2 = s.
Proof.
  unfold Version_of. destruct j; try done. by destruct (Version_parse s0).
Qed.

Lemma version_to_commit_pure {S} version spec (s : S) :
  (version_to_commit version spec s).2 = s.
Proof.
  unfold version_to_commit. destruct version as [v|]; [done|].
  unfold mbind, M_bind, spec_getitem.
  destruct (od_get "version" spec) as [[j|v]|]; done.
Qed.

Create HintDb path.
#[local] Hint Resolve keeps_path_lift keeps_path_set_spec keeps_path_when : path.
#[local] Hint Extern 1 (keeps_path _ (_ ≫= _)) =>
  apply keeps_path_bind; [|intros ?] : path.
#[local] Hint Extern 2 (keeps_path _ _) =>
  apply keeps_path_pure; intros ?;
    first [ done | apply getitem_pure | apply sv_getitem_pure
          | apply spec_getitem_pure | apply version_to_commit_pure ] : path.

Lemma check_version_keeps_path p t v tags :
  keeps_path p (check_version_incremented t v tags).
Proof.
  unfold check_version_incremented. destruct tags as [|tag tags]; [auto with path|].
  destruct (parse_all (tag :: tags) ≫= py_max); auto 10 with path.
Qed.

Lemma commit_body_keeps_path p component_type version :
  keeps_path p (commit_body component_type version).
Proof.
  unfold commit_body.
  pose proof check_version_keeps_path. auto 20 with path.
Qed.

Lemma publish_body_keeps_path env p : keeps_path p (publish_body env).
Proof.
  unfold publish_body.
  apply keeps_path_bind; [auto with path|]. intros path.
  apply keeps_path_bind; [auto 10 with path|]. intros _.
  apply keeps_path_bind; [auto with path|]. intros spec.
  apply keeps_path_bind.
  { destruct (od_get "publish" spec) as [[[]|]|]; auto 10 with path. }
  intros publish. auto 20 with path.
Qed.

(** [init_body] stops at once when the component is initialized. *)
Lemma init_body_initialized env c w p :
  ctx_path c = Some p →
  init_body env (c, w) =
    (Return (Ret_int 1), (c, emit (Print "Component already initialized.") w)).
Proof.
  intros Hp. unfold init_body, get_path, mbind, M_bind. simpl.
  rewrite Hp. reflexivity.
Qed.

Lemma init_body_keeps_path env p : keeps_path p (init_body env).
Proof.
  intros c w r c' w' Hp H. rewrite (init_body_initialized _ _ _ _ Hp) in H.
  by inversion H; subst.
Qed.

Lemma command_body_keeps_path env p A (body : M (Ctx * World) A) :
  command_body env A body → keeps_path p body.
Proof.
  intros [| |].
  - apply init_body_keeps_path.
  - apply commit_body_keeps_path.
  - apply publish_body_keeps_path.
Qed.

(** Loading the context reads and writes nothing. *)
Lemma specification_pure w : (specification w).2 = w.
Proof.
  unfold specification. destruct (spec_file w) as [[filename [|j]]|]; try done.
  destruct j; try done.
  unfold mbind, M_bind, spec_getitem.
  destruct (od_get "version" _) as [[j|v]|]; simpl; try done.
  pose proof (Version_of_pure j w) as Hv.
  destruct (Version_of j w) as [[v|r|e] w'] eqn:E; simpl in Hv; by subst.
Qed.

Lemma calculate_pure component_type spec_defaults w :
  (calculate_component_context component_type spec_defaults w).2 = w.
Proof.
  unfold calculate_component_context, mbind, M_bind.
  pose proof (specification_pure w) as Hs.
  destruct (specification w) as [[[[saved path]|]|r|e] w']; simpl in Hs; by subst.
Qed.

Lemma calculate_val component_type spec_defaults w ctx :
  (calculate_component_context component_type spec_defaults w).1 = Val ctx →
  calculate_component_context component_type spec_defaults w = (Val ctx, w).
Proof.
  intros H. pose proof (calculate_pure component_type spec_defaults w) as Hp.
  destruct (calculate_component_context _ _ w). simpl in *. by subst.
Qed.

(** The way out of [with component_context(...)], for any body. *)
Lemma context_exit {A} component_type spec_defaults
    (body : M (Ctx * World) A) w ctx r ctx' w1 :
  (calculate_component_context component_type spec_defaults w).1 = Val ctx →
  body (ctx, w) = (r, (ctx', w1)) →
  component_context component_type spec_defaults body w =
    (r, save_component_context
          (mkCtx (ctx_spec ctx')
                 (match r with
                  | Raise _ => ctx_path ctx
                  | _ => ctx_path ctx'
                  end)) w1).
Proof.
  intros Hc Hb. apply calculate_val in Hc.
  unfold component_context. rewrite (bind_val _ _ _ _ _ Hc). rewrite Hb.
  destruct ctx' as [spec' path']. by destruct r.
Qed.


(** C9 (as amended).  Let the body of init, commit or publish run in the
    context loaded from the world [w] and end, in whatever way [r] (its
    end, a [return], an exception), with the spec as [ctx'] has it.  If the
    component is initialized (the loaded context has the spec file's path)
    the spec is written to that file on the way out.  If it is not, the
    spec is written only when the body ended without an exception and has
    set a path; else the world is left as the body left it. *)
Theorem spec_saved_on_exit env A (body : M (Ctx * World) A)
    component_type spec_defaults w ctx r ctx' w1 :
  command_body env A body →
  (calculate_component_context component_type spec_defaults w).1 = Val ctx →
  body (ctx, w) = (r, (ctx', w1)) →
  let out := component_context component_type spec_defaults body w in
  let written path :=
    out.2 = write_spec path (spec_to_save (ctx_spec ctx')) w1 ∧
    spec_file out.2 = Some (path, Doc (spec_to_save (ctx_spec ctx'))) ∧
    trace out.2 = trace w1 ++ [WriteSpec path (spec_to_save (ctx_spec ctx'))] in
  out.1 = r ∧
  (∀ path, ctx_path ctx = Some path → written path) ∧
  (ctx_path ctx = None →
     match r, ctx_path ctx' with
     | Raise _, _ => out.2 = w1
     | _, None => out.2 = w1
     | _, Some path => written path
     end).
Proof.
  intros Hbody Hc Hb out written. subst out written.
  rewrite (context_exit _ _ _ _ _ _ _ _ Hc Hb). simpl.
  split; [done|]. split.
  - intros path Hp.
    pose proof (command_body_keeps_path env path A body Hbody _ _ _ _ _ Hp Hb) as Hp'.
    unfold save_component_context. simpl.
    rewrite Hp, Hp'. by destruct r.
  - intros Hn. unfold save_component_context. simpl. rewrite Hn.
    destruct r; destruct (ctx_path ctx'); done.
Qed.

(** ** The version check of commit *)

Lemma candidate_tag_inv component_type asked spec t :
  candidate_tag component_type asked spec = Some t →
  (∀ S (s : S), version_to_commit asked spec s = (Val (version t), s)) ∧
  od_get "name" spec = Some (component_name t) ∧
  t = mkVersionTag component_type (component_name t) (version t).
Proof.
  unfold candidate_tag, version_to_commit. intros H.
  destruct asked as [v|].
  - simpl in H. destruct (od_get "name" spec) as [n|]; [|done].
    simpl in H. inversion H; subst. by simpl.
  - unfold spec_getitem.
    destruct (od_get "version" spec) as [[j|v]|]; try done.
    simpl in H. destruct (od_get "name" spec) as [n|]; [|done].
    simpl in H. inversion H; subst. by simpl.
Qed.

Lemma parse_all_nil tags :
  parse_all tags = Some [] → tags = [].
Proof.
  destruct tags as [|tag tags]; [done|]. simpl.
  destruct (VersionTag_parse tag); [|done]. by destruct (parse_all tags).
Qed.

Lemma check_version_parsed t v tags ts :
  parse_all tags = Some ts →
  check_version_incremented t v tags =
    match py_max ts with
    | None => mret tt
    | Some last_tag =>
        when_ (VersionTag_le t last_tag)
          (lift (print ("Version " +:+ Version_str v +:+ " not greater than " +:+
                        Version_str (version last_tag)));;
           return_ (Ret_int 1))
    end.
Proof.
  intros Hts. unfold check_version_incremented.
  destruct tags as [|tag tags].
  - simpl in Hts. by inversion Hts.
  - rewrite Hts. simpl. destruct ts as [|t0 ts]; [|done].
    by apply parse_all_nil in Hts.
Qed.

(** The body of commit on an initialized component with a declaration:
    it returns 1 when the candidate is not above the latest tag, else it
    records the version in the spec and goes on. *)
Lemma commit_body_checked component_type asked ctx w p t ts :
  ctx_path ctx = Some p →
  is_Some (od_get SPEC_IOP_DECLARATION_KEY (ctx_spec ctx)) →
  candidate_tag component_type asked (ctx_spec ctx) = Some t →
  parse_all (git_tags w).*1 = Some ts →
  let spec' := od_set "version" (VVersion (version t)) (ctx_spec ctx) in
  let pass := (Val (spec', t), (mkCtx spec' (Some p), w)) in
  commit_body component_type asked (ctx, w) =
    match py_max ts with
    | Some last_tag =>
        if VersionTag_le t last_tag
        then (Return (Ret_int 1),
              (ctx, emit (Print (conflict_message t last_tag)) w))
        else pass
    | None => pass
    end.
Proof.
  intros Hp [d Hd] Ht Hts spec' pass.
  apply candidate_tag_inv in Ht as (Hv & Hn & Ht).
  unfold commit_body, get_path, get_spec.
  unfold mbind at 1, M_bind at 1. simpl. rewrite Hp. simpl.
  unfold mbind at 1, M_bind at 1. simpl.
  unfold mbind at 1, M_bind at 1. simpl. rewrite Hd. simpl.
  unfold mbind at 1, M_bind at 1. simpl.
  unfold mbind at 1, M_bind at 1. rewrite Hv.
  unfold mbind at 1, M_bind at 1. unfold spec_getitem. rewrite Hn. simpl.
  unfold mbind at 1, M_bind at 1. simpl.
  rewrite (check_version_parsed _ _ _ _ Hts).
  rewrite <- Ht.
  unfold mbind at 1, M_bind at 1.
  destruct (py_max ts) as [last_tag|]; simpl.
  - destruct (VersionTag_le t last_tag); simpl; [done|].
    subst pass spec'. unfold mbind, M_bind, set_spec. simpl. by rewrite Hp.
  - subst pass spec'. unfold mbind, M_bind, set_spec. simpl. by rewrite Hp.
Qed.

Lemma component_commit_checked env component_type message asked
    spec_defaults w ctx p t ts :
  (calculate_component_context component_type spec_defaults w).1 = Val ctx →
  ctx_path ctx = Some p →
  is_Some (od_get SPEC_IOP_DECLARATION_KEY (ctx_spec ctx)) →
  candidate_tag component_type asked (ctx_spec ctx) = Some t →
  parse_all (git_tags w).*1 = Some ts →
  let spec' := od_set "version" (VVersion (version t)) (ctx_spec ctx) in
  let go_on :=
    call (commit_and_tag env message spec' t)
         (write_spec p (spec_to_save spec') w) in
  component_commit env component_type message asked spec_defaults w =
    match py_max ts with
    | Some last_tag =>
        if VersionTag_le t last_tag
        then (Returns (Ret_int 1),
              write_spec p (spec_to_save (ctx_spec ctx))
                (emit (Print (conflict_message t last_tag)) w))
        else go_on
    | None => go_on
    end.
Proof.
  intros Hc Hp Hd Ht Hts spec' go_on.
  pose proof (commit_body_checked _ _ _ _ _ _ _ Hp Hd Ht Hts) as Hb.
  simpl in Hb. unfold component_commit, call.
  assert (Hgo : ∀ b, b (ctx, w) = (Val (spec', t), (mkCtx spec' (Some p), w)) →
            match
              (r ← component_context component_type spec_defaults b;
               commit_and_tag env message r.1 r.2) w
            with
            | (Val _, s') => (Returns Ret_None, s')
            | (Return r, s') => (Returns r, s')
            | (Raise e, s') => (Raises e, s')
            end = go_on).
  { intros b Hbb.
    rewrite (bind_val _ _ _ _ _ (context_exit _ _ _ _ _ _ _ _ Hc Hbb)).
    done. }
  destruct (py_max ts) as [last_tag|].
  - destruct (VersionTag_le t last_tag).
    + rewrite (bind_return _ _ _ _ _ (context_exit _ _ _ _ _ _ _ _ Hc Hb)).
      unfold save_component_context. simpl. by rewrite Hp.
    + by apply Hgo.
  - by apply Hgo.
Qed.

(** ** Loading a spec file *)

Lemma defaults_NoDup component_type spec_defaults :
  NoDup (match spec_defaults with
         | Some d => od_update (component_spec_defaults component_type) d
         | None => component_spec_defaults component_type
         end).*1.
Proof.
  assert (NoDup (component_spec_defaults component_type).*1).
  { by apply (bool_decide_unpack _). }
  destruct spec_defaults; [by apply od_update_NoDup | done].
Qed.


Lemma calculate_NoDup component_type spec_defaults w ctx :
  (calculate_component_context component_type spec_defaults w).1 = Val ctx →
  NoDup (ctx_spec ctx).*1.
Proof.
  unfold calculate_component_context, mbind, M_bind.
  destruct (specification w) as [[[[saved path]|]|r|e] w']; simpl; try done.
  - intros [= <-]. apply od_update_NoDup, defaults_NoDup.
  - intros [= <-]. apply defaults_NoDup.
Qed.

(** ** Tags read from the repository *)




(** ** What commit does once the version is accepted *)

(** With a definition file in the spec, the rest of commit stages the file,
    commits, asks for the tag, and returns 0, whatever git answered. *)
Lemma commit_and_tag_run env message spec t w fields file :
  od_get "definition" spec = Some (VJson (JObj fields)) →
  od_get "file" fields = Some file →
  call (commit_and_tag env message spec t) w =
    (Returns (Ret_int 0),
     (Git_tag_create env (VersionTag_str t) (Some message)
        (Git_commit env message false (emit (GitAdd file) w)).2).2).
Proof.
  intros Hd Hf. unfold call, commit_and_tag, spec_getitem.
  unfold mbind at 1, M_bind at 1. rewrite Hd. simpl.
  unfold mbind at 1, M_bind at 1. rewrite Hf. simpl.
  unfold mbind, M_bind, Git_add, Git_commit, Git_tag_create. simpl.
  by destruct (has_tag _ _).
Qed.

(** ** One commit after another *)



(** ** A spec file in the form the commands save *)

Lemma od_set_absent {V} k (v : V) d : k ∉ d.*1 → od_set k v d = d ++ [(k, v)].
Proof.
  induction d as [|[k1 v1] d IH]; simpl; [done|].
  intros [Hne Hd]%not_elem_of_cons.
  apply String.eqb_neq in Hne. rewrite Hne. by rewrite IH.
Qed.

Lemma od_update_append {V} (d : odict V) ps :
  NoDup (d.*1 ++ ps.*1) → od_update d ps = d ++ ps.
Proof.
  unfold od_update. revert d.
  induction ps as [|[k v] ps IH]; intros d Hnd; simpl.
  - by rewrite app_nil_r.
  - assert (Hk : k ∉ d.*1).
    { apply NoDup_app in Hnd as (_ & Hdisj & _). intros Hin.
      apply (Hdisj _ Hin). left. }
    rewrite od_set_absent by done. rewrite IH.
    + by rewrite <- app_assoc.
    + rewrite fmap_app. simpl. by rewrite <- app_assoc.
Qed.

Lemma od_set_fmap {V W} (f : V → W) k v (d : odict V) :
  od_set k (f v) (prod_map id f <$> d) = prod_map id f <$> od_set k v d.
Proof.
  induction d as [|[k1 v1] d IH]; simpl; [done|].
  destruct (String.eqb k k1); simpl; [done|]. f_equal. exact IH.
Qed.

Lemma od_update_fmap {V W} (f : V → W) (d : odict V) ps :
  od_update (prod_map id f <$> d) (prod_map id f <$> ps) =
    prod_map id f <$> od_update d ps.
Proof.
  unfold od_update. revert d. induction ps as [|[k v] ps IH]; intros d; [done|].
  rewrite fmap_cons. cbn [fold_left prod_map fst snd id].
  rewrite (od_set_fmap f k v d). apply IH.
Qed.

Lemma saved_fields name component_type description v rest :
  spec_to_save (saved_form name component_type description v rest) =
    JObj ([("name", name); ("componentType", component_type);
           ("description", description); ("version", JStr (Version_str v))]
          ++ rest).
Proof.
  unfold spec_to_save, saved_form. rewrite fmap_app. simpl. do 6 f_equal.
  rewrite <- list_fmap_compose. rewrite <- (list_fmap_id rest) at 2.
  apply list_fmap_ext. by intros i [k j] _.
Qed.

(** Round trip.  A spec in the form the commands save, with no key twice and
    a version whose text reads back, is what loading gives from the file it
    was saved to. *)
Lemma load_after_save component_type w p name ty description v rest :
  NoDup (saved_form name ty description v rest).*1 →
  Version_parse (Version_str v) = Some v →
  spec_file w = Some (p, Doc (spec_to_save (saved_form name ty description v rest))) →
  calculate_component_context component_type None w =
    (Val (mkCtx (saved_form name ty description v rest) (Some p)), w).
Proof.
  intros Hnd Hv Hfile. rewrite saved_fields in Hfile.
  unfold calculate_component_context, mbind, M_bind, specification.
  rewrite Hfile.
  set (fields := [("name", name); ("componentType", ty);
                  ("description", description);
                  ("version", JStr (Version_str v))] ++ rest).
  assert (Hkeys : (prod_map id VJson <$> fields).*1
                  = (saved_form name ty description v rest).*1).
  { unfold fields, saved_form. rewrite !fmap_app. by simpl. }
  assert (Hnd' : NoDup (([] : Spec).*1 ++ (prod_map id VJson <$> fields).*1)).
  { rewrite Hkeys. exact Hnd. }
  rewrite (od_update_append [] (prod_map id VJson <$> fields) Hnd').
  unfold fields. rewrite fmap_app. simpl.
  unfold mbind, M_bind, spec_getitem, mret, M_ret, Version_of. simpl.
  rewrite Hv. simpl.
  do 3 f_equal.
  change (fold_left _ _ _) with
    (od_update [("name", VJson name); ("componentType", VJson ty);
                ("description", VJson description); ("version", VVersion v)]
       (prod_map id VJson <$> rest)).
  by rewrite od_update_append.
Qed.


(** C3.  A commit that passes the version check and finds its tag there
    when it comes to create it (another actor was faster) leaves the git
    commit in place, and returns 0, as a commit that went well does. *)
Theorem commit_returns_0_when_tag_exists env component_type message asked
    spec_defaults w ctx p t ts fields file :
  (calculate_component_context component_type spec_defaults w).1 = Val ctx →
  ctx_path ctx = Some p →
  is_Some (od_get SPEC_IOP_DECLARATION_KEY (ctx_spec ctx)) →
  candidate_tag component_type asked (ctx_spec ctx) = Some t →
  parse_all (git_tags w).*1 = Some ts →
  (∀ last_tag, py_max ts = Some last_tag → VersionTag_le t last_tag = false) →
  od_get "definition" (ctx_spec ctx) = Some (VJson (JObj fields)) →
  od_get "file" fields = Some file →
  commit_made env message = true →
  has_tag (VersionTag_str t) (with_racing_tags env (git_tags w)) = true →
  let out := component_commit env component_type message asked spec_defaults w in
  let spec' := od_set "version" (VVersion (version t)) (ctx_spec ctx) in
  out.1 = Returns (Ret_int 0) ∧
  git_commits out.2 = git_commits w ++ [message] ∧
  git_tags out.2 = with_racing_tags env (git_tags w) ∧
  trace out.2 =
    trace w ++ [WriteSpec p (spec_to_save spec'); GitAdd file;
                GitCommit message false true;
                GitTagCreate (VersionTag_str t) (Some message) false].
Proof.
  intros Hc Hp Hd Ht Hts Hpass Hdef Hfile Hmade Hexists out spec'.
  pose proof (component_commit_checked env _ message _ _ _ _ _ _ _
                Hc Hp Hd Ht Hts) as E.
  cbn zeta in E. fold spec' in E.
  assert (Hgo : out = call (commit_and_tag env message spec' t)
                        (write_spec p (spec_to_save spec') w)).
  { subst out. rewrite E. destruct (py_max ts) as [last_tag|]; [|done].
    by rewrite (Hpass last_tag eq_refl). }
  assert (Hdef' : od_get "definition" spec' = Some (VJson (JObj fields))).
  { unfold spec'. by rewrite od_get_set. }
  rewrite (commit_and_tag_run _ _ _ _ _ _ _ Hdef' Hfile) in Hgo.
  rewrite Hgo. unfold Git_tag_create, Git_commit. rewrite Hmade. simpl.
  rewrite Hexists. simpl. split_and!; try done.
  by rewrite <- !app_assoc.
Qed.

(** With local tags that parse, publish goes on with the latest. *)
Lemma publish_goes_on env component_type spec_defaults w ts tag_to_publish :
  git_tags w ≠ [] →
  parse_all (git_tags w).*1 = Some ts →
  py_max ts = Some tag_to_publish →
  component_publish env component_type spec_defaults w =
    call (publish_tag env component_type spec_defaults tag_to_publish) w.
Proof.
  intros Hsome Hts Hmax.
  unfold component_publish, call, Git_tag_list.
  unfold mbind at 1, M_bind at 1. simpl.
  rewrite Hts. simpl. rewrite Hmax.
  by destruct (git_tags w).
Qed.


(** The end of publish when the tag's push is accepted and the registry
    refuses: the refusal is printed and the block ends as a block that went
    well does. *)
Lemma push_and_notify_refused env component_type spec fields remote name url
    registry component tag e w :
  od_get "remote" fields = Some (JObj remote) →
  od_get "name" remote = Some name →
  od_get "url" remote = Some url →
  od_get "registry" fields = Some registry →
  od_get "name" spec = Some component →
  push_accepted env name (Some (VersionTag_str tag)) = true →
  registry_error env registry (VersionTag_str tag)
                 (tag_hash env (VersionTag_str tag)) = Some e →
  (remote ← sv_getitem (VJson (JObj fields)) "remote";
   remote_name ← getitem remote "name";
   pushed ← Git_push env remote_name (Some (VersionTag_str tag));
   when_ (negb pushed)
     (print "Component version could not be pushed to remote, possibly due to a conflict.";;
      return_ (Ret_int 1));;
   notify_registry env component_type spec (VJson (JObj fields)) tag) w =
  (Val tt,
   emit (Print ("Component could not be published: " +:+ e +:+ "."))
     (emit (RegistryPush registry component_type component url
                         (VersionTag_str tag)
                         (tag_hash env (VersionTag_str tag)) (Some e))
        (emit (GitPush name (Some (VersionTag_str tag)) true) w))).
Proof.
  intros Hremote Hname Hurl Hregistry Hcomponent Hpush Herror.
  unfold sv_getitem, getitem.
  unfold mbind at 1, M_bind at 1. rewrite Hremote. simpl.
  unfold mbind at 1, M_bind at 1. rewrite Hname. simpl.
  unfold mbind at 1, M_bind at 1. unfold Git_push. rewrite Hpush. simpl.
  unfold mbind at 1, M_bind at 1. simpl.
  unfold notify_registry, except_RegistryError, sv_getitem, getitem,
    spec_getitem, Git_tag_hash, RegistryClient_push.
  unfold mbind, M_bind. rewrite Hregistry, Hcomponent, Hremote. simpl.
  rewrite Hurl. simpl. by rewrite Herror.
Qed.

(** C5.  A publish run in which the code and the tag are pushed and the
    registry then refuses the registration prints the refusal and ends
    there: nothing is done after it, so nothing pushed is taken back, and
    the command returns [None], as a publish that went well does. *)
Theorem publish_registry_failure_returns_None env component_type
    spec_defaults w ts tag ctx ctx' w1 spec fields remote name url registry
    component e :
  git_tags w ≠ [] →
  parse_all (git_tags w).*1 = Some ts →
  py_max ts = Some tag →
  (calculate_component_context component_type spec_defaults w).1 = Val ctx →
  publish_body env (ctx, w) = (Val (spec, VJson (JObj fields)), (ctx', w1)) →
  od_get "remote" fields = Some (JObj remote) →
  od_get "name" remote = Some name →
  od_get "url" remote = Some url →
  od_get "registry" fields = Some registry →
  od_get "name" spec = Some component →
  let pushed_tag :=
    if commit_made env "Update specification"
    then with_incremented_update_num tag else tag in
  push_accepted env name (Some (VersionTag_str pushed_tag)) = true →
  registry_error env registry (VersionTag_str pushed_tag)
                 (tag_hash env (VersionTag_str pushed_tag)) = Some e →
  let out := component_publish env component_type spec_defaults w in
  out.1 = Returns Ret_None ∧
  ∃ earlier,
    trace out.2 =
      earlier ++
      [GitPush name (Some (VersionTag_str pushed_tag)) true;
       RegistryPush registry component_type component url
                    (VersionTag_str pushed_tag)
                    (tag_hash env (VersionTag_str pushed_tag)) (Some e);
       Print ("Component could not be published: " +:+ e +:+ ".")].
Proof.
  intros Hsome Hts Hmax Hc Hb Hremote Hname Hurl Hregistry Hcomponent
         pushed_tag Hpush Herror out.
  assert (E : ∃ w3, out =
            (Returns Ret_None,
             emit (Print ("Component could not be published: " +:+ e +:+ "."))
               (emit (RegistryPush registry component_type component url
                        (VersionTag_str pushed_tag)
                        (tag_hash env (VersionTag_str pushed_tag)) (Some e))
                  (emit (GitPush name (Some (VersionTag_str pushed_tag)) true)
                     w3)))).
  { subst out. rewrite (publish_goes_on _ _ _ _ _ _ Hsome Hts Hmax).
    unfold call, publish_tag.
    rewrite (bind_val _ _ _ _ _ (context_exit _ _ _ _ _ _ _ _ Hc Hb)).
    cbn [fst snd]. unfold push_tag_and_notify.
    unfold mbind at 1, M_bind at 1. unfold Git_commit at 1.
    subst pushed_tag. revert Hpush Herror.
    destruct (commit_made env "Update specification") eqn:Hmade;
      intros Hpush Herror; cbn [fst snd].
    - unfold mbind at 1, M_bind at 1. unfold mbind at 1, M_bind at 1.
      unfold Git_tag_message at 1.
      unfold mbind at 1, M_bind at 1.
      destruct (Git_tag_create env
                  (VersionTag_str (with_incremented_update_num tag)) _ _)
        as [[created|r|x] w3] eqn:Ecreate;
        [|unfold Git_tag_create in Ecreate;
          destruct (has_tag _ _) in Ecreate; done..].
      cbn [mret M_ret].
      rewrite (push_and_notify_refused env component_type spec fields remote
                 name url registry component _ e w3
                 Hremote Hname Hurl Hregistry Hcomponent Hpush Herror).
      by exists w3.
    - unfold mbind at 1, M_bind at 1. cbn [mret M_ret].
      match goal with
      | |- context [emit (GitCommit ?m ?a ?b) ?w0] =>
          set (w3 := emit (GitCommit m a b) w0)
      end.
      rewrite (push_and_notify_refused env component_type spec fields remote
                 name url registry component _ e w3
                 Hremote Hname Hurl Hregistry Hcomponent Hpush Herror).
      by exists w3. }
  destruct E as [w3 ->]. split; [done|].
  exists (trace w3). simpl. by rewrite <- !app_assoc.
Qed.

End Facts.

End CLIFacts.

(** * The commands on the example component *)

Module Runs.
Import VersionModel CLI Example VersionFacts CLIFacts.




(** C3 at work: another actor creates the tag of 1.1.0 first. *)
Lemma commit_returns_0_when_tag_exists_witness :
  let out := component_commit racing "sources" "second" (Some v110) None demo_world in
  out.1 = Returns (Ret_int 0) ∧
  git_commits out.2 = ["second"] ∧
  git_tags out.2 = [("mezuri/sources/1.0.0", Some "first version");
                    ("mezuri/sources/1.1.0", Some "theirs")].
Proof.
  set (t := mkVersionTag "sources" (VJson (JStr "demo")) v110).
  set (fields := [("file", JStr "source.py"); ("class", JStr "Demo")]).
  assert (Hc : (calculate_component_context "sources" None demo_world).1
               = Val (loaded demo_world)) by reflexivity.
  assert (Hp : ctx_path (loaded demo_world) = Some demo_path) by reflexivity.
  assert (Hd : is_Some (od_get SPEC_IOP_DECLARATION_KEY
                          (ctx_spec (loaded demo_world)))) by (by eexists).
  assert (Ht : candidate_tag "sources" (Some v110) (ctx_spec (loaded demo_world))
               = Some t) by reflexivity.
  assert (Hts : parse_all (git_tags demo_world).*1 = Some [tag100]) by reflexivity.
  assert (Hpass : ∀ last_tag, py_max [tag100] = Some last_tag →
                              VersionTag_le t last_tag = false).
  { intros last_tag [= <-]. reflexivity. }
  assert (Hdef : od_get "definition" (ctx_spec (loaded demo_world))
                 = Some (VJson (JObj fields))) by reflexivity.
  assert (Hfile : od_get "file" fields = Some (JStr "source.py")) by reflexivity.
  assert (Hmade : commit_made racing "second" = true) by reflexivity.
  assert (Hexists : has_tag (VersionTag_str t)
                      (with_racing_tags racing (git_tags demo_world)) = true)
    by reflexivity.
  destruct (commit_returns_0_when_tag_exists racing "sources" "second" (Some v110)
              None demo_world (loaded demo_world) demo_path t [tag100] fields
              (JStr "source.py") Hc Hp Hd Ht Hts Hpass Hdef Hfile Hmade Hexists)
    as (H1 & H2 & H3 & _).
  cbv zeta. split_and!; [exact H1 | exact H2 | exact H3].
Defined.


(** C5 at work: the registry refuses the version. *)
Lemma publish_registry_failure_returns_None_witness :
  (component_publish registry_down "sources" None published_world).1
    = Returns Ret_None.
Proof.
  refine (proj1 (publish_registry_failure_returns_None registry_down "sources"
                   None published_world [tag100] tag100 (loaded published_world)
                   _ _ _ _ _ (JStr "origin") (JStr "R")
                   (JStr "http://registry.mezuri.org") (VJson (JStr "demo"))
                   "Remote repository version does not match"
                   _ eq_refl eq_refl eq_refl _ _ _ _ _ _ _ _)).
  - discriminate.
  - vm_compute. reflexivity.
  - reflexivity.
  - reflexivity.
  - reflexivity.
  - reflexivity.
  - reflexivity.
  - reflexivity.
  - reflexivity.
Defined.

(** C9 at work: the refused commit of 0.9.0 saves the spec file. *)
Lemma spec_saved_on_exit_witness :
  let out := component_context "sources" None (commit_body "sources" (Some v090))
               demo_world in
  out.1 = Return (Ret_int 1) ∧ spec_file out.2 = Some (demo_path, Doc demo_doc).
Proof.
  pose (res := commit_body "sources" (Some v090) (loaded demo_world, demo_world)).
  assert (Hc : (calculate_component_context "sources" None demo_world).1
               = Val (loaded demo_world)) by reflexivity.
  assert (Hb : commit_body "sources" (Some v090) (loaded demo_world, demo_world)
               = (res.1, (res.2.1, res.2.2))) by reflexivity.
  destruct (spec_saved_on_exit calm _ (commit_body "sources" (Some v090))
              "sources" None demo_world (loaded demo_world)
              res.1 res.2.1 res.2.2 (body_of_commit calm "sources" (Some v090))
              Hc Hb) as (H1 & H2 & _).
  destruct (H2 demo_path eq_refl) as (_ & H3 & _).
  cbv zeta. split; [exact H1 | exact H3].
Defined.

(** C9 (as stated) fails: a commit on a component that is not initialized
    returns 1 and writes no spec file. *)
Lemma commit_uninitialized_writes_nothing :
  let out := component_commit calm "sources" "first" None None empty_world in
  out.1 = Returns (Ret_int 1) ∧
  spec_file out.2 = None ∧
  trace out.2 = [Print "Component not initialized."].
Proof. cbv zeta. split_and!; reflexivity. Qed.

End Runs.


(** * More on the registry: reads, growth, lookups *)

Module RegistryMore.
Import Registry RegistryFacts.

(** ** What a request can change *)

(** A request that is not answered with 201 leaves the store as it was:
    every read, and every refused registration.  (The arguments of a
    request are strings, or absent.) *)
Theorem only_created_changes_store remotes r s :
  status_of (handle remotes r s).1 ≠ Some 201 → (handle remotes r s).2 = s.
Proof.
  destruct r as [|args|name|name|name args|name version]; simpl; intros Hst.
  - done.
  - unfold OperatorListAPI_post in *.
    destruct args as [[name|] [url|]]; simpl in *; try done.
    by destruct (operators s !! name).
  - unfold OperatorAPI_get. by destruct (operators s !! name).
  - unfold OperatorVersionListAPI_get. by destruct (operators s !! name).
  - unfold OperatorVersionListAPI_post in *.
    destruct (operators s !! name) as [op|]; [|done].
    destruct args as [[version|] [tag|] [hash|]]; simpl in *; try done.
    destruct (decide (version ∈ op_versions op)); simpl in *; [done|].
    by destruct (fetch_remote_spec remotes (op_gitRemoteUrl op) hash tag).
  - unfold OperatorVersionAPI_get. destruct (operators s !! name); [|done].
    by destruct (find_version name version (operator_versions s)).
Qed.

Lemma only_created_changes_store_witness :
  (handle demo_remotes
     (POST_operator_versions "demo"
        (version_args "1.0.0" "mezuri/sources/1.0.0" "H0")) demo_store).2
  = demo_store.
Proof.
  apply (only_created_changes_store demo_remotes
           (POST_operator_versions "demo"
              (version_args "1.0.0" "mezuri/sources/1.0.0" "H0")) demo_store).
  discriminate.
Defined.

(** One request keeps every operator, with its name and remote url; its
    list of versions and the list of records grow at their ends only. *)
Lemma handle_grows remotes r s name op :
  operators s !! name = Some op →
  ∃ op', operators (handle remotes r s).2 !! name = Some op' ∧
         op_name op' = op_name op ∧
         op_gitRemoteUrl op' = op_gitRemoteUrl op ∧
         op_versions op `prefix_of` op_versions op' ∧
         operator_versions s `prefix_of` operator_versions (handle remotes r s).2.
Proof.
  intros Hop.
  assert (Hsame : ∃ op', operators s !! name = Some op' ∧
            op_name op' = op_name op ∧ op_gitRemoteUrl op' = op_gitRemoteUrl op ∧
            op_versions op `prefix_of` op_versions op' ∧
            operator_versions s `prefix_of` operator_versions s).
  { exists op. by split_and!. }
  destruct r as [|args|n|n|n args|n version]; simpl.
  - done.
  - unfold OperatorListAPI_post.
    destruct args as [[n|] [url|]]; simpl; try done.
    destruct (operators s !! n) as [op0|] eqn:Hn; simpl; [done|].
    exists op. split_and!; try done.
    rewrite lookup_insert_ne; [done|]. intros ->. congruence.
  - unfold OperatorAPI_get. by destruct (operators s !! n).
  - unfold OperatorVersionListAPI_get. by destruct (operators s !! n).
  - unfold OperatorVersionListAPI_post.
    destruct (operators s !! n) as [op0|] eqn:Hn; [|done].
    destruct args as [[version|] [tag|] [hash|]]; simpl; try done.
    destruct (decide (version ∈ op_versions op0)); simpl; [done|].
    destruct (fetch_remote_spec remotes (op_gitRemoteUrl op0) hash tag);
      simpl; [|done..].
    destruct (decide (n = name)) as [->|Hne].
    + rewrite Hop in Hn. inversion Hn; subst op0.
      eexists. rewrite lookup_insert_eq. split; [done|]. simpl.
      split_and!; try done; by apply prefix_app_r.
    + exists op. rewrite lookup_insert_ne by done.
      split_and!; try done. by apply prefix_app_r.
  - unfold OperatorVersionAPI_get. destruct (operators s !! n); [|done].
    by destruct (find_version n version (operator_versions s)).
Qed.

(** The registry only ever appends: whatever requests are served, an
    operator stays registered under its name with its remote url, the
    versions it had stay at the front of its list in their order, and the
    records the store had stay at the front of the records. *)
Theorem registry_is_append_only reqs s name op :
  operators s !! name = Some op →
  ∃ op', operators (serve reqs s) !! name = Some op' ∧
         op_name op' = op_name op ∧
         op_gitRemoteUrl op' = op_gitRemoteUrl op ∧
         op_versions op `prefix_of` op_versions op' ∧
         operator_versions s `prefix_of` operator_versions (serve reqs s).
Proof.
  revert s op. induction reqs as [|[remotes r] reqs IH]; intros s op Hop.
  - exists op. by split_and!.
  - simpl. destruct (handle_grows remotes r s name op Hop)
      as (op1 & Hop1 & Hn1 & Hu1 & Hv1 & Hr1).
    destruct (IH _ _ Hop1) as (op2 & Hop2 & Hn2 & Hu2 & Hv2 & Hr2).
    exists op2. split_and!; [done|congruence|congruence| |].
    + by etrans.
    + by etrans.
Qed.

Lemma registry_is_append_only_witness :
  ∃ op', operators (serve [(demo_remotes,
                             POST_operator_versions "demo"
                               (version_args "1.0.0" "mezuri/sources/1.0.0" "H1"))]
                          demo_store) !! "demo" = Some op' ∧
         op_gitRemoteUrl op' = "R".
Proof.
  destruct (registry_is_append_only
              [(demo_remotes,
                POST_operator_versions "demo"
                  (version_args "1.0.0" "mezuri/sources/1.0.0" "H1"))]
              demo_store "demo" demo_operator eq_refl)
    as (op' & H1 & _ & H2 & _).
  exists op'. split; [exact H1 | exact H2].
Defined.

(** ** Lists and records in step, in order *)

Lemma recorded_versions_app name rs1 rs2 :
  recorded_versions name (rs1 ++ rs2) =
    recorded_versions name rs1 ++ recorded_versions name rs2.
Proof. unfold recorded_versions. by rewrite filter_app, fmap_app. Qed.

Lemma ordered_empty : store_ordered empty_store.
Proof. split; [intros name; simpl; by rewrite lookup_empty | done]. Qed.

Lemma handle_ordered remotes r s :
  store_ordered s → store_ordered (handle remotes r s).2.
Proof.
  intros [Hord Hkey]. destruct r as [|args|n|n|n args|n version]; simpl.
  - done.
  - unfold OperatorListAPI_post.
    destruct args as [[n|] [url|]]; simpl; try done.
    destruct (operators s !! n) as [op0|] eqn:Hn; simpl; [done|]. split; simpl.
    + intros name. rewrite Hord, lookup_insert.
      destruct (decide (n = name)) as [->|?]; [by rewrite Hn | done].
    + intros name op. rewrite lookup_insert.
      destruct (decide (n = name)) as [->|?]; [by intros [= <-] | apply Hkey].
  - unfold OperatorAPI_get. by destruct (operators s !! n).
  - unfold OperatorVersionListAPI_get. by destruct (operators s !! n).
  - unfold OperatorVersionListAPI_post.
    destruct (operators s !! n) as [op0|] eqn:Hn; [|done].
    destruct args as [[version|] [tag|] [hash|]]; simpl; try done.
    destruct (decide (version ∈ op_versions op0)); simpl; [done|].
    destruct (fetch_remote_spec remotes (op_gitRemoteUrl op0) hash tag);
      simpl; [|done..]. split; simpl.
    + intros name. rewrite recorded_versions_app, Hord, lookup_insert.
      unfold recorded_versions at 1. rewrite filter_cons, filter_nil. simpl.
      destruct (decide (n = name)) as [->|?]; [by rewrite Hn|].
      by rewrite app_nil_r.
    + intros name op. rewrite lookup_insert.
      destruct (decide (n = name)) as [->|?]; [|apply Hkey].
      intros [= <-]. simpl. by apply Hkey.
  - unfold OperatorVersionAPI_get. destruct (operators s !! n); [|done].
    by destruct (find_version n version (operator_versions s)).
Qed.

Lemma serve_ordered reqs s : store_ordered s → store_ordered (serve reqs s).
Proof.
  revert s. induction reqs as [|[remotes r] reqs IH]; intros s Hs; [done|].
  simpl. by apply IH, handle_ordered.
Qed.

Lemma find_version_is_Some name version rs :
  is_Some (find_version name version rs) ↔ version ∈ recorded_versions name rs.
Proof.
  unfold recorded_versions. induction rs as [|r rs IH]; simpl.
  - split; [by intros [? ?] | by intros ?%elem_of_nil].
  - rewrite filter_cons.
    destruct (decide (ov_operator_name r = name)); [|done].
    rewrite fmap_cons, elem_of_cons.
    destruct (decide (ov_version r = version)) as [->|Hne].
    + split; [by left | by eexists].
    + rewrite IH. split; [by right | by intros [?|?]].
Qed.

Lemma find_version_found name version rs r :
  find_version name version rs = Some r →
  ov_operator_name r = name ∧ ov_version r = version ∧ r ∈ rs.
Proof.
  induction rs as [|r0 rs IH]; simpl; [done|].
  destruct (decide (ov_operator_name r0 = name)).
  - destruct (decide (ov_version r0 = version)).
    + intros [= <-]. split_and!; [done|done|left].
    + intros H. destruct (IH H) as (?&?&?). split_and!; [done|done|by right].
  - intros H. destruct (IH H) as (?&?&?). split_and!; [done|done|by right].
Qed.

Lemma find_version_app name version rs r :
  find_version name version rs = None →
  ov_operator_name r = name → ov_version r = version →
  find_version name version (rs ++ [r]) = Some r.
Proof.
  intros Hnone Hn Hv. induction rs as [|r0 rs IH]; simpl in *.
  - by rewrite !decide_True.
  - destruct (decide (ov_operator_name r0 = name)); [|by apply IH].
    destruct (decide (ov_version r0 = version)); [done | by apply IH].
Qed.





(** A version registered with 201 can be fetched at once: the GET of that
    version answers 200 with the record of the claimed hash and of the spec
    read from the remote. *)
Theorem registered_version_is_served reqs remotes name version tag hash :
  let s := serve reqs empty_store in
  let posted := OperatorVersionListAPI_post remotes name
                  (version_args version tag hash) s in
  status_of posted.1 = Some 201 →
  ∃ op spec,
    operators s !! name = Some op ∧
    spec_at remotes (op_gitRemoteUrl op) hash = Some spec ∧
    OperatorVersionAPI_get name version posted.2 =
      (Response 200 (BOperatorVersion (mkOperatorVersion version hash name spec)),
       posted.2).
Proof.
  intros s posted Hst. subst posted.
  destruct (operators s !! name) as [op|] eqn:Hop;
    [|unfold OperatorVersionListAPI_post in Hst; by rewrite Hop in Hst].
  destruct (decide (version ∈ op_versions op)) as [Hin|Hfresh].
  { unfold OperatorVersionListAPI_post in Hst. rewrite Hop in Hst. simpl in Hst.
    by rewrite decide_True in Hst. }
  destruct (registerVersion_verified_parts remotes s name op version tag hash
              Hop Hfresh Hst) as (spec & Hspec & Hops & Hrecs).
  exists op, spec. split_and!; [done|done|].
  destruct (serve_ordered reqs _ ordered_empty) as [Hord _].
  fold s in Hord. specialize (Hord name). rewrite Hop in Hord.
  assert (Hnone : find_version name version (operator_versions s) = None).
  { destruct (find_version name version (operator_versions s)) eqn:E; [|done].
    destruct Hfresh. rewrite <- Hord. apply find_version_is_Some. by eexists. }
  unfold OperatorVersionAPI_get. rewrite Hops, lookup_insert_eq, Hrecs.
  by rewrite (find_version_app name version _
                (mkOperatorVersion version hash name spec) Hnone eq_refl eq_refl).
Qed.

Lemma registered_version_is_served_witness :
  let s := serve [(demo_remotes, POST_operators (operator_args "demo" "R"))]
                 empty_store in
  let posted := OperatorVersionListAPI_post demo_remotes "demo"
                  (version_args "1.0.0" "mezuri/sources/1.0.0" "H1") s in
  status_of (OperatorVersionAPI_get "demo" "1.0.0" posted.2).1 = Some 200.
Proof.
  destruct (registered_version_is_served
              [(demo_remotes, POST_operators (operator_args "demo" "R"))]
              demo_remotes "demo" "1.0.0" "mezuri/sources/1.0.0" "H1" eq_refl)
    as (op & spec & _ & _ & E).
  cbv zeta. by rewrite E.
Defined.

(** A version that was registered cannot be registered again: once a
    registration was answered 201, any registration of that version for that
    operator, with whatever tag and hash and whatever the remote holds then,
    is answered 409 and changes nothing. *)
Theorem registered_version_is_refused remotes remotes' s name version
    tag hash tag' hash' :
  let posted := OperatorVersionListAPI_post remotes name
                  (version_args version tag hash) s in
  status_of posted.1 = Some 201 →
  let again := OperatorVersionListAPI_post remotes' name
                 (version_args version tag' hash') posted.2 in
  status_of again.1 = Some 409 ∧ again.2 = posted.2.
Proof.
  intros posted Hst again. subst posted again.
  cut (OperatorVersionListAPI_post remotes' name (version_args version tag' hash')
         (OperatorVersionListAPI_post remotes name
            (version_args version tag hash) s).2
       = (conflict,
          (OperatorVersionListAPI_post remotes name
             (version_args version tag hash) s).2)).
  { intros ->. by split. }
  destruct (operators s !! name) as [op|] eqn:Hop;
    [|unfold OperatorVersionListAPI_post in Hst; by rewrite Hop in Hst].
  destruct (decide (version ∈ op_versions op)) as [Hin|Hfresh].
  { unfold OperatorVersionListAPI_post in Hst. rewrite Hop in Hst. simpl in Hst.
    by rewrite decide_True in Hst. }
  destruct (registerVersion_verified_parts remotes s name op version tag hash
              Hop Hfresh Hst) as (spec & _ & Hops & _).
  unfold OperatorVersionListAPI_post at 1. rewrite Hops, lookup_insert_eq.
  simpl. rewrite decide_True; [done|].
  apply elem_of_app. right. by apply list_elem_of_singleton.
Qed.

Lemma registered_version_is_refused_witness :
  let posted := OperatorVersionListAPI_post demo_remotes "demo"
                  (version_args "1.0.0" "mezuri/sources/1.0.0" "H1") demo_store in
  status_of (OperatorVersionListAPI_post demo_remotes "demo"
               (version_args "1.0.0" "mezuri/sources/1.0.0" "H1") posted.2).1
    = Some 409.
Proof.
  exact (proj1 (registered_version_is_refused demo_remotes demo_remotes
                  demo_store "demo" "1.0.0" "mezuri/sources/1.0.0" "H1"
                  "mezuri/sources/1.0.0" "H1" eq_refl)).
Defined.

(** An operator registered with 201, on the store the registry has after any
    requests, is served at once: its GET answers the operator with the remote
    url given and no version, and the list of its versions is empty. *)
Theorem registered_operator_is_served reqs name url :
  let s := serve reqs empty_store in
  let posted := OperatorListAPI_post (operator_args name url) s in
  status_of posted.1 = Some 201 →
  OperatorAPI_get name posted.2 =
    (Response 200 (BComponent (mkOperator name url [])), posted.2) ∧
  OperatorVersionListAPI_get name posted.2 =
    (Response 200 (BVersions []), posted.2) ∧
  status_of (OperatorListAPI_post (operator_args name url) posted.2).1 = Some 409.
Proof.
  intros s posted Hst.
  pose proof (handle_ordered (fun _ => None) (POST_operators (operator_args name url))
                s (serve_ordered reqs _ ordered_empty)) as [Hord _].
  simpl in Hord. fold s posted in Hord. specialize (Hord name).
  assert (Hop : operators posted.2 !! name = Some (mkOperator name url [])).
  { subst posted. unfold OperatorListAPI_post in *. simpl in *.
    destruct (operators s !! name); simpl in *; [done|].
    apply lookup_insert_eq. }
  rewrite Hop in Hord. simpl in Hord.
  unfold OperatorAPI_get, OperatorVersionListAPI_get, OperatorListAPI_post.
  simpl. rewrite !Hop. split_and!; [done| |done].
  do 3 f_equal. unfold recorded_versions in Hord.
  apply fmap_nil_inv in Hord. by rewrite Hord.
Qed.

Lemma registered_operator_is_served_witness :
  OperatorAPI_get "demo" (OperatorListAPI_post (operator_args "demo" "R")
                            (serve [] empty_store)).2 =
    (Response 200 (BComponent (mkOperator "demo" "R" [])),
     (OperatorListAPI_post (operator_args "demo" "R") (serve [] empty_store)).2).
Proof.
  apply (registered_operator_is_served [] "demo" "R"). reflexivity.
Defined.

End RegistryMore.


(** * More on the commands *)

Module CLIMore.
Import VersionModel CLI CLIFacts.

Section More.
Context {syntax : VersionSyntax}.

(** ** Components that are not initialized, spec files that do not load *)

Lemma calculate_uninitialized component_type spec_defaults w :
  spec_file w = None →
  ∃ spec, calculate_component_context component_type spec_defaults w =
            (Val (mkCtx spec None), w).
Proof.
  intros Hnone. unfold calculate_component_context, mbind, M_bind, specification.
  rewrite Hnone. by eexists.
Qed.


(** What loading a spec file raises: a file that is not JSON, a JSON object
    without a version, a version the syntax does not read. *)
Lemma calculate_raises component_type spec_defaults w path :
  (spec_file w = Some (path, Garbled) →
     (calculate_component_context component_type spec_defaults w).1
       = Raise JSONDecodeError) ∧
  (∀ fields, spec_file w = Some (path, Doc (JObj fields)) →
     od_get "version" fields = None →
     (calculate_component_context component_type spec_defaults w).1
       = Raise (KeyError "version")) ∧
  (∀ fields s, spec_file w = Some (path, Doc (JObj fields)) →
     NoDup fields.*1 → od_get "version" fields = Some (JStr s) →
     Version_parse s = None →
     (calculate_component_context component_type spec_defaults w).1
       = Raise ParseError).
Proof.
  split_and!.
  - intros Hf. unfold calculate_component_context, mbind, M_bind, specification.
    by rewrite Hf.
  - intros fields Hf Hv.
    unfold calculate_component_context, mbind, M_bind, specification.
    rewrite Hf. unfold spec_getitem.
    assert (Hnone : od_get "version"
              (od_update ([] : Spec) (prod_map id VJson <$> fields)) = None).
    { apply od_get_None. apply od_get_None in Hv.
      assert (Hkeys : ∀ (d : Spec) ps k, k ∈ (od_update d ps).*1 → k ∈ d.*1 ∨ k ∈ ps.*1).
      { intros d ps. revert d. unfold od_update.
        induction ps as [|[k1 v1] ps IH]; intros d k Hk; simpl in *; [by left|].
        apply IH in Hk as [Hk|Hk]; [|right; by right].
        rewrite od_set_keys in Hk. destruct (decide (k1 ∈ d.*1)); [by left|].
        apply elem_of_app in Hk as [?|Hk]; [by left|].
        apply list_elem_of_singleton in Hk as ->. right. left. }
      intros Hin. apply Hkeys in Hin as [Hin|Hin]; [by apply elem_of_nil in Hin|].
      by rewrite od_keys_fmap in Hin. }
    by rewrite Hnone.
  - intros fields s Hf Hnd Hv Hparse.
    unfold calculate_component_context, mbind, M_bind, specification.
    rewrite Hf. unfold spec_getitem.
    rewrite od_get_update by (by rewrite od_keys_fmap).
    rewrite od_get_fmap, Hv. simpl.
    unfold mbind, M_bind, mret, M_ret, Version_of. by rewrite Hparse.
Qed.


(** ** Commands that stop early on an initialized component *)

(** On an initialized component init asks nothing and does not touch the
    repository: it prints that the component is initialized, the spec file
    is saved again from the context as loaded, and init returns 1. *)
Theorem init_twice_is_refused env component_type spec_defaults w ctx p :
  (calculate_component_context component_type spec_defaults w).1 = Val ctx →
  ctx_path ctx = Some p →
  component_init env component_type spec_defaults w =
    (Returns (Ret_int 1),
     write_spec p (spec_to_save (ctx_spec ctx))
       (emit (Print "Component already initialized.") w)).
Proof.
  intros Hc Hp. unfold component_init, call.
  pose proof (init_body_initialized env ctx w p Hp) as Hb.
  rewrite (bind_return _ _ _ _ _ (context_exit _ _ _ _ _ _ _ _ Hc Hb)).
  unfold save_component_context. simpl. by rewrite Hp.
Qed.


(** Commit of a new version on a component whose spec has a declaration but
    no definition: the version check passes and the new version is written
    to the spec file, then the lookup of the definition raises [KeyError];
    nothing is staged, committed or tagged. *)
Theorem commit_without_definition env component_type message asked
    spec_defaults w ctx p t ts :
  (calculate_component_context component_type spec_defaults w).1 = Val ctx →
  ctx_path ctx = Some p →
  is_Some (od_get SPEC_IOP_DECLARATION_KEY (ctx_spec ctx)) →
  candidate_tag component_type asked (ctx_spec ctx) = Some t →
  parse_all (git_tags w).*1 = Some ts →
  (∀ last_tag, py_max ts = Some last_tag → VersionTag_le t last_tag = false) →
  od_get "definition" (ctx_spec ctx) = None →
  component_commit env component_type message asked spec_defaults w =
    (Raises (KeyError "definition"),
     write_spec p
       (spec_to_save (od_set "version" (VVersion (version t)) (ctx_spec ctx))) w).
Proof.
  intros Hc Hp Hd Ht Hts Hpass Hdef.
  pose proof (component_commit_checked env _ message _ _ _ _ _ _ _
                Hc Hp Hd Ht Hts) as E.
  cbn zeta in E. rewrite E.
  assert (Hgo : call (commit_and_tag env message
                        (od_set "version" (VVersion (version t)) (ctx_spec ctx)) t)
                  (write_spec p
                     (spec_to_save
                        (od_set "version" (VVersion (version t)) (ctx_spec ctx))) w)
                = (Raises (KeyError "definition"),
                   write_spec p
                     (spec_to_save
                        (od_set "version" (VVersion (version t)) (ctx_spec ctx))) w)).
  { unfold call, commit_and_tag, spec_getitem.
    unfold mbind at 1, M_bind at 1. rewrite od_get_set. simpl. by rewrite Hdef. }
  destruct (py_max ts) as [last_tag|]; [|done].
  by rewrite (Hpass last_tag eq_refl).
Qed.

(** ** Init in a fresh directory *)



Lemma init_body_fresh env component_type w name_line description_line
    version_line rest :
  stdin w = name_line :: description_line :: version_line :: rest →
  (count_words false (strip name_line) ≤ 1)%nat →
  let asked :=
    emit (Prompt version_prompt)
      (emit (Prompt "Description: ")
         (emit (Prompt name_prompt)
            (mkWorld (spec_file w) (git_tags w) (git_commits w) (git_remotes w)
                     rest (trace w)))) in
  let named :=
    od_set "description" (VJson (JStr (strip description_line)))
      (od_set "name" (VJson (JStr (strip name_line)))
         (component_spec_defaults component_type)) in
  init_body env (mkCtx (component_spec_defaults component_type) None, w) =
    match (if String.eqb (strip version_line) "" then Some DEFAULT_VERSION
           else Version_parse (strip version_line)) with
    | Some v =>
        (Val tt,
         (mkCtx (od_set "version" (VVersion v) named)
                (Some (path_join (cwd env) SPEC_FILENAME)),
          emit GitInit asked))
    | None => (Raise ParseError, (mkCtx named None, asked))
    end.
Proof.
  intros Hin Hone asked named.
  unfold init_body, get_path.
  unfold mbind at 1, M_bind at 1. simpl.
  unfold mbind at 1, M_bind at 1. simpl.
  unfold mbind at 1, M_bind at 1.
  assert (Hname : lift input_name
            (mkCtx (component_spec_defaults component_type) None, w) =
          (Val (strip name_line),
           (mkCtx (component_spec_defaults component_type) None,
            emit (Prompt name_prompt)
              (mkWorld (spec_file w) (git_tags w) (git_commits w)
                       (git_remotes w)
                       (description_line :: version_line :: rest) (trace w))))).
  { unfold lift, input_name, mbind, M_bind, input, get. simpl. rewrite Hin.
    simpl. destruct (decide (1 < count_words false (strip name_line))%nat);
      [lia|done]. }
  rewrite Hname.
  unfold mbind, M_bind, set_spec, lift, input, Git_init, set_path, Version_of.
  simpl.
  destruct (String.eqb (strip version_line) ""); simpl; [done|].
  by destruct (Version_parse (strip version_line)).
Qed.

Lemma init_fresh_run env component_type w name_line description_line
    version_line rest v :
  spec_file w = None →
  stdin w = name_line :: description_line :: version_line :: rest →
  (count_words false (strip name_line) ≤ 1)%nat →
  (if String.eqb (strip version_line) "" then Some DEFAULT_VERSION
   else Version_parse (strip version_line)) = Some v →
  component_init env component_type None w =
    (Returns (Ret_int 0),
     emit (GitAdd (JStr SPEC_FILENAME))
       (write_spec (path_join (cwd env) SPEC_FILENAME)
          (fresh_doc component_type (strip name_line)
             (strip description_line) v)
          (emit GitInit
             (emit (Prompt version_prompt)
                (emit (Prompt "Description: ")
                   (emit (Prompt name_prompt)
                      (mkWorld (spec_file w) (git_tags w) (git_commits w)
                               (git_remotes w) rest (trace w)))))))).
Proof.
  intros Hnone Hin Hone Hv.
  destruct (calculate_uninitialized component_type None w Hnone) as [spec Hc].
  assert (spec = component_spec_defaults component_type) as ->.
  { unfold calculate_component_context, mbind, M_bind, specification in Hc.
    rewrite Hnone in Hc. by inversion Hc. }
  assert (Hc1 : (calculate_component_context component_type None w).1
                = Val (mkCtx (component_spec_defaults component_type) None))
    by by rewrite Hc.
  pose proof (init_body_fresh env component_type w _ _ _ _ Hin Hone) as Hb.
  cbn zeta in Hb. rewrite Hv in Hb.
  unfold component_init, call.
  rewrite (bind_val _ _ _ _ _ (context_exit _ _ _ _ _ _ _ _ Hc1 Hb)).
  reflexivity.
Qed.

(** Init in a directory with no spec file above it, given a name of one
    word, a description and a version (a blank line for the default one):
    git is initialized, the spec file is created in the working directory
    with the name, the component type, the description and the version, the
    spec file is staged, and init returns 0. *)
Theorem init_creates_spec env component_type w name_line description_line
    version_line rest v :
  spec_file w = None →
  stdin w = name_line :: description_line :: version_line :: rest →
  (count_words false (strip name_line) ≤ 1)%nat →
  (if String.eqb (strip version_line) "" then Some DEFAULT_VERSION
   else Version_parse (strip version_line)) = Some v →
  let path := path_join (cwd env) SPEC_FILENAME in
  let doc := fresh_doc component_type (strip name_line)
               (strip description_line) v in
  let out := component_init env component_type None w in
  out.1 = Returns (Ret_int 0) ∧
  spec_file out.2 = Some (path, Doc doc) ∧
  stdin out.2 = rest ∧
  git_tags out.2 = git_tags w ∧
  trace out.2 =
    trace w ++ [Prompt name_prompt; Prompt "Description: ";
                Prompt version_prompt; GitInit; WriteSpec path doc;
                GitAdd (JStr SPEC_FILENAME)].
Proof.
  intros Hnone Hin Hone Hv path doc out.
  destruct (calculate_uninitialized component_type None w Hnone) as [spec Hc].
  assert (spec = component_spec_defaults component_type) as ->.
  { unfold calculate_component_context, mbind, M_bind, specification in Hc.
    rewrite Hnone in Hc. by inversion Hc. }
  assert (Hc1 : (calculate_component_context component_type None w).1
                = Val (mkCtx (component_spec_defaults component_type) None))
    by by rewrite Hc.
  pose proof (init_body_fresh env component_type w _ _ _ _ Hin Hone) as Hb.
  cbn zeta in Hb. rewrite Hv in Hb.
  subst out. unfold component_init, call.
  rewrite (bind_val _ _ _ _ _ (context_exit _ _ _ _ _ _ _ _ Hc1 Hb)).
  unfold mbind, M_bind, Git_add, return_. simpl.
  split_and!; try done. by rewrite <- !app_assoc.
Qed.

(** Init in a fresh directory with a version that the syntax does not read:
    init raises after the three questions, git is not initialized and no
    spec file is created. *)
Theorem init_with_unreadable_version env component_type w name_line
    description_line version_line rest :
  spec_file w = None →
  stdin w = name_line :: description_line :: version_line :: rest →
  (count_words false (strip name_line) ≤ 1)%nat →
  String.eqb (strip version_line) "" = false →
  Version_parse (strip version_line) = None →
  let out := component_init env component_type None w in
  out.1 = Raises ParseError ∧
  spec_file out.2 = None ∧
  git_tags out.2 = git_tags w ∧ git_commits out.2 = git_commits w ∧
  trace out.2 =
    trace w ++ [Prompt name_prompt; Prompt "Description: ";
                Prompt version_prompt].
Proof.
  intros Hnone Hin Hone Hblank Hv out.
  destruct (calculate_uninitialized component_type None w Hnone) as [spec Hc].
  assert (spec = component_spec_defaults component_type) as ->.
  { unfold calculate_component_context, mbind, M_bind, specification in Hc.
    rewrite Hnone in Hc. by inversion Hc. }
  assert (Hc1 : (calculate_component_context component_type None w).1
                = Val (mkCtx (component_spec_defaults component_type) None))
    by by rewrite Hc.
  pose proof (init_body_fresh env component_type w _ _ _ _ Hin Hone) as Hb.
  cbn zeta in Hb. rewrite Hblank, Hv in Hb.
  subst out. unfold component_init, call.
  rewrite (bind_raise _ _ _ _ _ (context_exit _ _ _ _ _ _ _ _ Hc1 Hb)).
  simpl. split_and!; try done. by rewrite <- !app_assoc.
Qed.

(** ** Saving a spec and loading it again *)

(** What a context loaded from a spec file is made of. *)
Lemma calculate_loaded component_type spec_defaults w ctx p :
  (calculate_component_context component_type spec_defaults w).1 = Val ctx →
  ctx_path ctx = Some p →
  ∃ fields ver,
    spec_file w = Some (p, Doc (JObj fields)) ∧
    ctx_spec ctx =
      od_update
        (match spec_defaults with
         | Some d => od_update (component_spec_defaults component_type) d
         | None => component_spec_defaults component_type
         end)
        (od_set "version" (VVersion ver)
           (od_update [] (prod_map id VJson <$> fields))).
Proof.
  unfold calculate_component_context, mbind, M_bind, specification.
  destruct (spec_file w) as [[path [|j]]|]; simpl; try done.
  - destruct j; simpl; try done.
    unfold mbind, M_bind, spec_getitem.
    destruct (od_get "version" _) as [[j|v]|]; simpl; try done.
    unfold Version_of. destruct j; simpl; try done.
    destruct (Version_parse s) as [ver|]; simpl; [|done].
    intros [= <-]. simpl. intros [= <-]. by exists fields, ver.
  - intros [= <-]. done.
Qed.

Lemma od_set_keeps_form k x name ty description y rest :
  (∃ j, x = VJson j) ∨ k = "version" →
  ∃ name' ty' description' y' rest',
    od_set k x ([("name", VJson name); ("componentType", VJson ty);
                 ("description", VJson description); ("version", y)]
                ++ (prod_map id VJson <$> rest)) =
    [("name", VJson name'); ("componentType", VJson ty');
     ("description", VJson description'); ("version", y')]
    ++ (prod_map id VJson <$> rest').
Proof.
  intros Hx. simpl.
  destruct (String.eqb k "version") eqn:Ev.
  { apply String.eqb_eq in Ev as ->. simpl. by eexists _, _, _, _, _. }
  destruct Hx as [[j ->] | ->]; [|by rewrite String.eqb_refl in Ev].
  destruct (String.eqb k "name") eqn:E1.
  { apply String.eqb_eq in E1 as ->. by eexists _, _, _, _, _. }
  destruct (String.eqb k "componentType") eqn:E2.
  { apply String.eqb_eq in E2 as ->. by eexists _, _, _, _, _. }
  destruct (String.eqb k "description") eqn:E3.
  { apply String.eqb_eq in E3 as ->. by eexists _, _, _, _, _. }
  exists name, ty, description, y, (od_set k j rest).
  do 4 f_equal. apply od_set_fmap.
Qed.

Lemma od_update_keeps_form ps name ty description y rest :
  Forall (fun kv => (∃ j, kv.2 = VJson j) ∨ kv.1 = "version") ps →
  ∃ name' ty' description' y' rest',
    od_update ([("name", VJson name); ("componentType", VJson ty);
                ("description", VJson description); ("version", y)]
               ++ (prod_map id VJson <$> rest)) ps =
    [("name", VJson name'); ("componentType", VJson ty');
     ("description", VJson description'); ("version", y')]
    ++ (prod_map id VJson <$> rest').
Proof.
  unfold od_update. revert name ty description y rest.
  induction ps as [|[k x] ps IH]; intros name ty description y rest Hps.
  - by eexists _, _, _, _, _.
  - apply Forall_cons in Hps as [Hx Hps]. cbn [fold_left fst snd].
    destruct (od_set_keeps_form k x name ty description y rest Hx)
      as (n' & t' & d' & y' & r' & E).
    rewrite E. by apply IH.
Qed.

Lemma od_set_Forall {V} (P : string * V → Prop) k v d :
  Forall P d → P (k, v) → Forall P (od_set k v d).
Proof.
  intros Hd Hkv. induction d as [|[k1 v1] d IH]; simpl.
  - by constructor.
  - apply Forall_cons in Hd as [H1 Hd].
    destruct (String.eqb k k1); constructor; auto.
Qed.

(** The context loaded from a spec file has the four keys every spec has
    first, the version as a [Version], and JSON values elsewhere: it is in
    the form the commands save. *)
Lemma loaded_spec_is_saved_form component_type w ctx p :
  (calculate_component_context component_type None w).1 = Val ctx →
  ctx_path ctx = Some p →
  ∃ name ty description v rest,
    ctx_spec ctx = saved_form name ty description v rest.
Proof.
  intros Hc Hp.
  destruct (calculate_loaded _ _ _ _ _ Hc Hp) as (fields & ver & _ & Hspec).
  set (saved := od_set "version" (VVersion ver)
                  (od_update [] (prod_map id VJson <$> fields))) in Hspec.
  assert (Hsaved : Forall (fun kv => (∃ j, kv.2 = VJson j) ∨ kv.1 = "version")
                          saved).
  { apply od_set_Forall; [|by right].
    change ([] : Spec) with (prod_map id VJson <$> ([] : list (string * Json))).
    rewrite od_update_fmap. apply Forall_fmap, Forall_forall.
    intros [k j] _. left. by exists j. }
  destruct (od_update_keeps_form saved JNull (JStr component_type) JNull
              (VVersion DEFAULT_VERSION) [] Hsaved)
    as (n & t & d & y & r & E).
  assert (Hy : od_get "version" (ctx_spec ctx) = Some (VVersion ver)).
  { rewrite Hspec. rewrite od_get_update.
    - unfold saved. by rewrite od_get_set.
    - apply od_set_NoDup, od_update_NoDup. constructor. }
  rewrite Hspec in Hy |- *.
  change (component_spec_defaults component_type) with
    ([("name", VJson JNull); ("componentType", VJson (JStr component_type));
      ("description", VJson JNull); ("version", VVersion DEFAULT_VERSION)]
     ++ (prod_map id VJson <$> [])) in Hy |- *.
  rewrite E in Hy |- *. simpl in Hy. inversion Hy; subst y.
  by exists n, t, d, ver, r.
Qed.

(** Saving the context that was loaded and loading again gives the same
    context, when the text of its version reads back; the second save
    writes the same document. *)
Theorem reload_gives_same_context component_type w ctx p v :
  (calculate_component_context component_type None w).1 = Val ctx →
  ctx_path ctx = Some p →
  od_get "version" (ctx_spec ctx) = Some (VVersion v) →
  Version_parse (Version_str v) = Some v →
  calculate_component_context component_type None (save_component_context ctx w)
    = (Val ctx, save_component_context ctx w).
Proof.
  intros Hc Hp Hver Hv.
  destruct (loaded_spec_is_saved_form _ _ _ _ Hc Hp) as (n & t & d & v' & r & E).
  assert (v' = v) as ->.
  { rewrite E in Hver. simpl in Hver. by inversion Hver. }
  pose proof (calculate_NoDup _ _ _ _ Hc) as Hnd. rewrite E in Hnd.
  destruct ctx as [spec path]. simpl in *. subst spec path.
  apply (load_after_save component_type _ p n t d v r Hnd Hv).
  unfold save_component_context. by simpl.
Qed.

(** A component that was just initialized cannot be committed: its spec
    has no declaration yet.  After an init that went through, commit prints
    that the declaration is missing and returns 1; the spec file init wrote
    is written again as it is, and the repository is not touched. *)
Theorem commit_after_init_needs_declaration env env' component_type message
    asked w name_line description_line version_line rest v :
  spec_file w = None →
  stdin w = name_line :: description_line :: version_line :: rest →
  (count_words false (strip name_line) ≤ 1)%nat →
  (if String.eqb (strip version_line) "" then Some DEFAULT_VERSION
   else Version_parse (strip version_line)) = Some v →
  Version_parse (Version_str v) = Some v →
  let w1 := (component_init env component_type None w).2 in
  let out := component_commit env' component_type message asked None w1 in
  out.1 = Returns (Ret_int 1) ∧
  spec_file out.2 = spec_file w1 ∧
  git_tags out.2 = git_tags w1 ∧ git_commits out.2 = git_commits w1 ∧
  trace out.2 =
    trace w1 ++
    [Print "Component IOP declaration not added.";
     WriteSpec (path_join (cwd env) SPEC_FILENAME)
       (fresh_doc component_type (strip name_line) (strip description_line) v)].
Proof.
  intros Hnone Hin Hone Hv Hread w1 out.
  set (spec := saved_form (JStr (strip name_line)) (JStr component_type)
                 (JStr (strip description_line)) v []).
  set (p := path_join (cwd env) SPEC_FILENAME).
  assert (Hdoc : fresh_doc component_type (strip name_line)
                   (strip description_line) v = spec_to_save spec) by done.
  assert (Hfile : spec_file w1 = Some (p, Doc (spec_to_save spec))).
  { subst w1. rewrite (init_fresh_run env _ _ _ _ _ _ _ Hnone Hin Hone Hv).
    by rewrite Hdoc. }
  assert (Hnd : NoDup spec.*1).
  { subst spec. simpl. apply (bool_decide_unpack _). by vm_compute. }
  pose proof (load_after_save component_type w1 p _ _ _ _ _ Hnd Hread Hfile)
    as Hc.
  assert (Hc1 : (calculate_component_context component_type None w1).1
                = Val (mkCtx spec (Some p))) by by rewrite Hc.
  assert (Hb : commit_body component_type asked (mkCtx spec (Some p), w1) =
               (Return (Ret_int 1),
                (mkCtx spec (Some p),
                 emit (Print "Component IOP declaration not added.") w1)))
    by done.
  subst out. unfold component_commit, call.
  rewrite (bind_return _ _ _ _ _ (context_exit _ _ _ _ _ _ _ _ Hc1 Hb)).
  unfold save_component_context. simpl. rewrite Hfile, Hdoc.
  split_and!; try done. by rewrite <- !app_assoc.
Qed.

(** ** The project root *)

Lemma above_or_same (d : list string) name parent :
  d `suffix_of` name :: parent → d = name :: parent ∨ d `suffix_of` parent.
Proof.
  intros [[|x k] E]; simpl in E.
  - by left.
  - right. inversion E; subst. by exists k.
Qed.

(** The project root is the nearest directory, from the working directory
    upwards, that holds a specification file: it is the working directory
    or above it, it holds the file, and every other such directory is above
    it.  There is none exactly when no directory up to [/] holds one. *)
Theorem project_root_is_nearest has_spec cwd :
  match get_project_root_by_specification has_spec cwd with
  | Some root =>
      root `suffix_of` cwd ∧ has_spec root = true ∧
      ∀ d, d `suffix_of` cwd → has_spec d = true → d `suffix_of` root
  | None => ∀ d, d `suffix_of` cwd → has_spec d = false
  end.
Proof.
  induction cwd as [|name parent IH]; simpl.
  - destruct (has_spec []) eqn:E.
    + split_and!; [done|done|]. intros d Hd _. done.
    + intros d Hd. apply suffix_nil_inv in Hd. by subst.
  - destruct (has_spec (name :: parent)) eqn:E.
    + split_and!; [done|done|]. intros d Hd _. done.
    + destruct (get_project_root_by_specification has_spec parent) as [root|].
      * destruct IH as (Hroot & Hspec & Hnear). split_and!.
        -- by apply suffix_cons_r.
        -- done.
        -- intros d Hd Hds. apply above_or_same in Hd as [->|Hd].
           ++ congruence.
           ++ by apply Hnear.
      * intros d Hd. apply above_or_same in Hd as [->|Hd]; [done|].
        by apply IH.
Qed.

(** ** What publish tells the registry *)

Lemma quiet_same {S A} (world : S → World) (m : M S A) :
  (∀ s, world (m s).2 = world s) → quiet world m.
Proof.
  intros H s. exists []. rewrite H, app_nil_r. split; [done|constructor].
Qed.

Lemma quiet_pure {S A} (world : S → World) (m : M S A) :
  (∀ s, (m s).2 = s) → quiet world m.
Proof. intros H. apply quiet_same. intros s. by rewrite H. Qed.

Lemma quiet_bind {S A B} (world : S → World) (m : M S A) (k : A → M S B) :
  quiet world m → (∀ a, quiet world (k a)) → quiet world (m ≫= k).
Proof.
  intros Hm Hk s. unfold mbind, M_bind.
  destruct (Hm s) as (e1 & H1 & Q1).
  destruct (m s) as [[a|x|e] s1]; simpl in *.
  - destruct (Hk a s1) as (e2 & H2 & Q2). exists (e1 ++ e2).
    rewrite H2, H1, app_assoc. split; [done|by apply Forall_app].
  - by exists e1.
  - by exists e1.
Qed.

Lemma quiet_lift {A} (m : M World A) : quiet id m → quiet snd (lift m).
Proof.
  intros Hm [c w]. unfold lift. simpl.
  destruct (Hm w) as (e & H & Q). destruct (m w) as [r w1]. simpl in *.
  by exists e.
Qed.

Lemma quiet_when {S} (world : S → World) cond (m : M S unit) :
  quiet world m → quiet world (when_ cond m).
Proof. intros Hm. destruct cond; simpl; [done|]. by apply quiet_pure. Qed.

Lemma quiet_emit {A} (m : M World A) :
  (∀ w, ∃ e, is_registry_push e = false ∧ trace (m w).2 = trace w ++ [e]) →
  quiet id m.
Proof.
  intros H w. destruct (H w) as (e & Q & E). exists [e].
  split; [done|by repeat constructor].
Qed.

Lemma quiet_print line : quiet id (print line).
Proof. apply quiet_emit. intros w. eexists. split; [|reflexivity]. done. Qed.

Lemma quiet_input prompt : quiet id (input prompt).
Proof.
  apply quiet_emit. intros w. unfold input.
  destruct (stdin w); (eexists; split; [|reflexivity]; done).
Qed.

Lemma quiet_Git_push env remote tag : quiet id (Git_push env remote tag).
Proof. apply quiet_emit. intros w. eexists. split; [|reflexivity]. done. Qed.

Lemma quiet_Git_remote_add name url : quiet id (Git_remote_add name url).
Proof. apply quiet_emit. intros w. eexists. split; [|reflexivity]. done. Qed.

Lemma quiet_set_spec k v : quiet snd (set_spec k v).
Proof. by apply quiet_same. Qed.

Create HintDb quiet.
#[local] Hint Resolve quiet_lift quiet_when quiet_print quiet_input
  quiet_Git_push quiet_Git_remote_add quiet_set_spec : quiet.
#[local] Hint Extern 1 (quiet _ (_ ≫= _)) =>
  apply quiet_bind; [|intros ?] : quiet.
#[local] Hint Extern 2 (quiet _ _) =>
  apply quiet_pure; intros ?;
    first [ done | apply getitem_pure | apply sv_getitem_pure
          | apply spec_getitem_pure ] : quiet.

Lemma quiet_input_git_remote : quiet id input_git_remote.
Proof. unfold input_git_remote. auto 10 with quiet. Qed.

Lemma quiet_input_registry : quiet id input_registry.
Proof. unfold input_registry. auto 10 with quiet. Qed.

Lemma quiet_choose_publish : quiet id choose_publish.
Proof.
  pose proof quiet_input_git_remote. pose proof quiet_input_registry.
  unfold choose_publish.
  apply quiet_bind; [auto with quiet|]. intros remote_names.
  apply quiet_bind; [|auto 10 with quiet].
  destruct remote_names as [|n ns].
  - apply quiet_bind; [done|]. intros [name url]. auto 10 with quiet.
  - apply quiet_bind; [auto with quiet|]. intros remote_name.
    destruct (String.eqb (strip remote_name) "").
    + apply quiet_bind; [done|]. intros [name url]. auto 10 with quiet.
    + auto 10 with quiet.
Qed.

Lemma quiet_publish_body env : quiet snd (publish_body env).
Proof.
  pose proof quiet_choose_publish.
  unfold publish_body.
  apply quiet_bind; [auto with quiet|]. intros path.
  apply quiet_bind; [auto 10 with quiet|]. intros _.
  apply quiet_bind; [auto with quiet|]. intros spec.
  apply quiet_bind.
  { destruct (od_get "publish" spec) as [[[]|]|]; auto 10 with quiet. }
  intros publish. auto 20 with quiet.
Qed.

Lemma no_registry_call_app evs1 evs2 :
  no_registry_call evs1 → no_registry_call evs2 →
  no_registry_call (evs1 ++ evs2).
Proof. intros H1 H2. by apply Forall_app. Qed.

Lemma save_adds ctx w :
  ∃ evs, trace (save_component_context ctx w) = trace w ++ evs ∧
         no_registry_call evs.
Proof.
  unfold save_component_context. destruct (ctx_path ctx) as [p|].
  - eexists [_]. split; [done|by repeat constructor].
  - exists []. rewrite app_nil_r. split; [done|constructor].
Qed.

(** What the body of publish has done when it hands on the settings: the
    last thing was the accepted push of the code to the remote they name. *)
Lemma publish_body_val env ctx w spec publish c' w' :
  publish_body env (ctx, w) = (Val (spec, publish), (c', w')) →
  ∃ fields remote remote_name evs,
    publish = VJson (JObj fields) ∧
    od_get "remote" fields = Some (JObj remote) ∧
    od_get "name" remote = Some remote_name ∧
    trace w' = trace w ++ evs ++ [GitPush remote_name None true] ∧
    no_registry_call evs.
Proof.
  pose proof quiet_choose_publish as Hchoose.
  unfold publish_body. intros H.
  apply bind_inv in H as [(path & [c1 w1] & H1 & H)|[(x & _ & ?)|(e & _ & ?)]];
    [|done..].
  inversion H1; subst c1 w1 path; clear H1.
  apply bind_inv in H as [([] & [c1 w1] & H1 & H)|[(x & _ & ?)|(e & _ & ?)]];
    [|done..].
  assert (c1 = ctx ∧ w1 = w) as [-> ->].
  { destruct (ctx_path ctx); simpl in H1; by inversion H1. }
  clear H1.
  apply bind_inv in H as [(spec0 & [c1 w1] & H1 & H)|[(x & _ & ?)|(e & _ & ?)]];
    [|done..].
  inversion H1; subst c1 w1 spec0; clear H1.
  apply bind_inv in H as [(publish0 & [c1 w1] & H1 & H)|[(x & _ & ?)|(e & _ & ?)]];
    [|done..].
  assert (Hpre : ∃ evs, trace w1 = trace w ++ evs ∧ no_registry_call evs).
  { assert (Q : quiet snd
                  (match od_get "publish" (ctx_spec ctx) with
                   | None | Some (VJson JNull) =>
                       chosen ← lift (choose_publish);
                       mret (VJson chosen)
                   | Some publish => mret publish
                   end : M (Ctx * World) SpecVal)).
    { destruct (od_get "publish" (ctx_spec ctx)) as [[[]|]|];
        auto 10 with quiet. }
    specialize (Q (ctx, w)). rewrite H1 in Q. exact Q. }
  clear H1. destruct Hpre as (evs & Hevs & Qevs).
  unfold sv_getitem, getitem in H.
  destruct publish0 as [[| | | | |fields]|]; try done.
  unfold mbind at 1, M_bind at 1 in H.
  destruct (od_get "remote" fields) as [remote|] eqn:Hremote; [|done].
  simpl in H.
  destruct remote as [| | | | |remote]; try done.
  unfold mbind at 1, M_bind at 1 in H.
  destruct (od_get "name" remote) as [remote_name|] eqn:Hname; [|done].
  simpl in H.
  unfold mbind at 1, M_bind at 1, lift, Git_push in H. simpl in H.
  destruct (push_accepted env remote_name None) eqn:Hpush; simpl in H; [|done].
  inversion H; subst. exists fields, remote, remote_name, evs.
  split_and!; try done. simpl. by rewrite Hevs, app_assoc.
Qed.

(** The way out of the [with] block for a body that only adds events. *)
Lemma quiet_component_context {A} component_type spec_defaults
    (body : M (Ctx * World) A) :
  quiet snd body → quiet id (component_context component_type spec_defaults body).
Proof.
  intros Hb w. unfold component_context, mbind, M_bind.
  pose proof (calculate_pure component_type spec_defaults w) as Hp.
  destruct (calculate_component_context _ _ w) as [[ctx|x|e] w0];
    simpl in Hp; subst w0; simpl;
    [|exists []; rewrite app_nil_r; split; [done|constructor]..].
  destruct (Hb (ctx, w)) as (e1 & H1 & Q1).
  destruct (body (ctx, w)) as [r [c' w']]. simpl in H1.
  assert (∃ saved, ((match r with
                     | Val a => (Val a, save_component_context c' w')
                     | Return x => (Return x, save_component_context c' w')
                     | Raise e =>
                         (Raise e,
                          save_component_context
                            (mkCtx (ctx_spec c') (ctx_path ctx)) w')
                     end : Res A * World)).2 = save_component_context saved w')
    as [saved ->] by (destruct r; by eexists).
  destruct (save_adds saved w') as (e2 & H2 & Q2).
  exists (e1 ++ e2). unfold id. rewrite H2, H1, app_assoc.
  split; [done|by apply Forall_app].
Qed.

Lemma component_context_val {A} component_type spec_defaults
    (body : M (Ctx * World) A) w a w1 :
  component_context component_type spec_defaults body w = (Val a, w1) →
  ∃ ctx c' w', body (ctx, w) = (Val a, (c', w')) ∧
               w1 = save_component_context c' w'.
Proof.
  unfold component_context, mbind, M_bind.
  pose proof (calculate_pure component_type spec_defaults w) as Hp.
  destruct (calculate_component_context _ _ w) as [[ctx|x|e] w0];
    simpl in Hp; subst w0; [|done..].
  destruct (body (ctx, w)) as [[b|x|e] [c' w']] eqn:E; [|done..].
  intros H. inversion H; subst. by exists ctx, c', w'.
Qed.

(** The end of publish, after the [with] block: the registry is called
    only right after the accepted push of the tag it is told. *)
Lemma push_tag_and_notify_shape env component_type spec fields remote
    remote_name tag w :
  od_get "remote" fields = Some (JObj remote) →
  od_get "name" remote = Some remote_name →
  ∃ evs,
    trace (push_tag_and_notify env component_type spec (VJson (JObj fields))
             tag w).2 = trace w ++ evs ∧
    (no_registry_call evs ∨
     ∃ pre registry name url pushed error post,
       evs = pre ++ [GitPush remote_name (Some pushed) true;
                     RegistryPush registry component_type name url pushed
                                  (tag_hash env pushed) error] ++ post ∧
       no_registry_call pre ∧ no_registry_call post).
Proof.
  intros Hremote Hname.
  unfold push_tag_and_notify, notify_registry, except_RegistryError,
    Git_commit, Git_tag_message, Git_tag_create, Git_push, Git_tag_hash,
    RegistryClient_push, sv_getitem, getitem, spec_getitem, print, when_,
    return_.
  unfold mbind, M_bind, mret, M_ret. simpl.
  destruct (commit_made env "Update specification"); simpl;
    [destruct (has_tag _ _); simpl|];
    rewrite Hremote; simpl; rewrite Hname; simpl;
    (destruct (push_accepted env remote_name _); simpl;
     [|eexists; split;
       [rewrite <- ?app_assoc; simpl; reflexivity
       |left; by repeat constructor]]);
    (destruct (od_get "registry" fields); simpl;
     [|eexists; split;
       [rewrite <- ?app_assoc; simpl; reflexivity
       |left; by repeat constructor]]);
    (destruct (od_get "name" spec); simpl;
     [|eexists; split;
       [rewrite <- ?app_assoc; simpl; reflexivity
       |left; by repeat constructor]]);
    (destruct (od_get "url" remote); simpl;
     [|eexists; split;
       [rewrite <- ?app_assoc; simpl; reflexivity
       |left; by repeat constructor]]);
    destruct (registry_error env _ _ _); simpl;
    (eexists; split; [rewrite <- ?app_assoc; simpl; reflexivity|]);
    right;
    first [ eexists [_], _, _, _, _, _, _; split; [reflexivity|]
          | eexists [_; _], _, _, _, _, _, _; split; [reflexivity|] ];
    split; by repeat constructor.
Qed.

(** Publish calls the registry at most once in a run, and only when the
    code and then the tag were pushed to the remote and accepted: the call
    comes right after the accepted push of the tag, and it tells the
    registry that tag with the hash git gives for it.  This holds for
    every run of publish, however it ends. *)
Theorem registry_is_told_after_both_pushes env component_type spec_defaults w :
  ∃ evs,
    trace (component_publish env component_type spec_defaults w).2
      = trace w ++ evs ∧
    (no_registry_call evs ∨
     ∃ pre remote_name registry name url pushed error post,
       evs = pre ++ [GitPush remote_name (Some pushed) true;
                     RegistryPush registry component_type name url pushed
                                  (tag_hash env pushed) error] ++ post ∧
       GitPush remote_name None true ∈ pre ∧
       no_registry_call pre ∧ no_registry_call post).
Proof.
  unfold component_publish, call, Git_tag_list.
  unfold mbind at 1, M_bind at 1. cbn [fst snd].
  destruct ((git_tags w).*1) as [|t0 tags0] eqn:Etags.
  { eexists [_]. split; [done|]. left. by repeat constructor. }
  destruct (parse_all (t0 :: tags0) ≫= py_max) as [tag|].
  2:{ exists []. rewrite app_nil_r. split; [done|]. left. constructor. }
  unfold publish_tag, mbind, M_bind.
  pose proof (quiet_component_context component_type spec_defaults
                (publish_body env) (quiet_publish_body env) w) as Q.
  destruct (component_context component_type spec_defaults (publish_body env) w)
    as [[[spec publish]|x|e] w1] eqn:E; simpl in Q;
    [|destruct Q as (evs & H & Qe); exists evs; split; [done|by left]..].
  clear Q.
  apply component_context_val in E as (ctx & c' & w' & Hb & ->).
  apply publish_body_val in Hb
    as (fields & remote & remote_name & evs1 & -> & Hremote & Hname & H1 & Q1).
  destruct (save_adds c' w') as (evs2 & H2 & Q2).
  destruct (push_tag_and_notify_shape env component_type spec fields remote
              remote_name tag (save_component_context c' w') Hremote Hname)
    as (evs3 & H3 & Hshape).
  cbn [fst snd].
  destruct (push_tag_and_notify env component_type spec (VJson (JObj fields))
              tag (save_component_context c' w')) as [[[]|x|e] w3];
    simpl in H3 |- *;
    (exists ((evs1 ++ [GitPush remote_name None true]) ++ evs2 ++ evs3);
     split; [by rewrite H3, H2, H1, <- !app_assoc|]);
    (assert (Qpush : no_registry_call [GitPush remote_name None true])
       by (by repeat constructor));
    (destruct Hshape as [Q3|(pre & registry & name & url & pushed & error
                              & post & -> & Qpre & Qpost)];
     [left; by repeat apply no_registry_call_app
     |right;
      exists ((evs1 ++ [GitPush remote_name None true]) ++ evs2 ++ pre),
        remote_name, registry, name, url, pushed, error, post;
      split_and!;
      [by rewrite <- !app_assoc
      |apply elem_of_app; left; apply elem_of_app; right; by left
      |by repeat apply no_registry_call_app
      |done]]).
Qed.

End More.

End CLIMore.

(** * Properties of the declarations *)

Module DeclarationFacts.
Import Declarations.

(** Induction on types, with the types of a dict's items. *)
Lemma MezuriType_induction (P : MezuriType → Prop) :
  (∀ data_type, P (MezuriBaseType data_type)) →
  (∀ element_type, P element_type → P (List element_type)) →
  (∀ definition, Forall (fun kv => P kv.2) definition → P (Dict definition)) →
  ∀ t, P t.
Proof.
  intros Hbase Hlist Hdict. fix IH 1. intros [data_type|element_type|definition].
  - apply Hbase.
  - apply Hlist, IH.
  - apply Hdict. induction definition as [|[k v] definition IHd].
    + constructor.
    + constructor; [apply IH | exact IHd].
Qed.

Lemma serialize_inj t1 t2 : serialize t1 = serialize t2 → t1 = t2.
Proof.
  revert t2. induction t1 as [d1|e1 IH|def1 IH] using MezuriType_induction;
    intros [d2|e2|def2]; simpl; intros H; try done.
  - by inversion H.
  - inversion H as [He]. f_equal. by apply IH.
  - inversion H as [Hd]. f_equal. clear H.
    revert def2 Hd. induction IH as [|[k1 v1] def1 Hv _ IHdef];
      intros [|[k2 v2] def2] Hd; simpl in Hd; try done.
    inversion Hd as [[Hk Hs Hrest]]. f_equal.
    + f_equal. by apply Hv.
    + by apply IHdef.
Qed.

(** The serialized form of a declaration tells its type: no two types
    built from base types, lists and dicts serialize alike, nor do two
    interfaces, nor a type and an interface. *)
Theorem serialized_form_tells_type a b :
  type_serialize a = type_serialize b → a = b.
Proof.
  destruct a as [t1|[r1 n1 v1]], b as [t2|[r2 n2 v2]]; simpl; intros H.
  - f_equal. by apply serialize_inj.
  - destruct t1 as [|e|d]; simpl in H; try done.
  - destruct t2 as [|e|d]; simpl in H; try done.
  - unfold InterfaceProxy_serialize in H. simpl in H. by inversion H.
Qed.

Lemma declared_cons c d ds :
  declared c (d :: ds) =
    if decide (cls d = c) then (name d, type_ d) :: declared c ds
    else declared c ds.
Proof. unfold declared. rewrite filter_cons. by destruct (decide _). Qed.

Lemma keys_apart c c' : _attr_key c ≠ _attr_io_key c'.
Proof. by destruct c, c'. Qed.

Lemma io_key_inj c c' : _attr_io_key c = _attr_io_key c' → c = c'.
Proof. by destruct c, c'. Qed.

(** A method written under any decorators is decorated without error, and
    what it records is sorted by kind: the attribute of each kind holds
    the declarations of that kind and no other, the last written first (it
    is applied first), or is absent when there is none; the attribute that
    marks the method is set exactly when a decorator with that mark is
    there. *)
Theorem decorators_are_recorded_by_kind decorators :
  ∃ m, decorate decorators ∅ = Some m ∧
       (∀ c, m !! _attr_io_key c = recorded c decorators) ∧
       (∀ c, m !! _attr_key c = Some ATrue ↔
             Exists (fun d => _attr_key (cls d) = _attr_key c) decorators) ∧
       (∀ c, m !! _attr_key c = None ∨ m !! _attr_key c = Some ATrue).
Proof.
  induction decorators as [|d ds (m & Hm & Hio & Hmark & Hflag)].
  - exists ∅. split_and!; [done|done| |by left].
    intros c. rewrite lookup_empty. split; [done|]. by intros ?%Exists_nil.
  - change (decorate (d :: ds) ∅)
      with (decorate ds ∅ ≫= AbstractIOP_call d).
    rewrite Hm. simpl. unfold AbstractIOP_call.
    rewrite lookup_insert_ne by apply keys_apart.
    rewrite (Hio (cls d)). unfold recorded at 1.
    set (io := match declared (cls d) ds with
               | [] => []
               | l => reverse l
               end).
    assert (Hnew : reverse (declared (cls d) (d :: ds))
                   = io ++ [(name d, type_ d)]).
    { rewrite declared_cons, decide_True by done. rewrite reverse_cons.
      subst io. by destruct (declared (cls d) ds). }
    exists (<[_attr_io_key (cls d) := ADeclarations (io ++ [(name d, type_ d)])]>
              (<[_attr_key (cls d) := ATrue]> m)).
    split_and!.
    + subst io. by destruct (declared (cls d) ds).
    + intros c. destruct (decide (cls d = c)) as [<-|Hne].
      * rewrite lookup_insert_eq. unfold recorded. rewrite <- Hnew.
        rewrite declared_cons, decide_True by done. done.
      * rewrite lookup_insert_ne by (intros E; by apply io_key_inj in E).
        rewrite lookup_insert_ne by apply keys_apart.
        rewrite Hio. unfold recorded. by rewrite declared_cons, decide_False.
    + intros c.
      rewrite lookup_insert_ne by (intros E; symmetry in E; by apply keys_apart in E).
      rewrite Exists_cons.
      destruct (decide (_attr_key (cls d) = _attr_key c)) as [E|Hne].
      * rewrite E, lookup_insert_eq. split; [by left|done].
      * rewrite lookup_insert_ne by done. rewrite Hmark.
        split; [by right | by intros [?|?]].
    + intros c.
      rewrite lookup_insert_ne by (intros E; symmetry in E; by apply keys_apart in E).
      destruct (decide (_attr_key (cls d) = _attr_key c)) as [E|Hne].
      * rewrite E, lookup_insert_eq. by right.
      * rewrite lookup_insert_ne by done. apply Hflag.
Qed.

(** A list of integers, written in two ways. *)
Lemma serialized_form_tells_type_witness :
  OfType (List Int) = OfType (List (MezuriBaseType "INT")).
Proof. apply serialized_form_tells_type. reflexivity. Defined.

End DeclarationFacts.

(** * The commands at work, on the example component *)

Module MoreRuns.
Import VersionModel CLI Example CLIFacts.



(** Init on the example component. *)
Lemma init_twice_is_refused_witness :
  (component_init calm "sources" None demo_world).1 = Returns (Ret_int 1).
Proof.
  assert (Hc : (calculate_component_context "sources" None demo_world).1
               = Val (loaded demo_world)) by reflexivity.
  assert (Hp : ctx_path (loaded demo_world) = Some demo_path) by reflexivity.
  by rewrite (CLIMore.init_twice_is_refused calm "sources" None demo_world
                (loaded demo_world) demo_path Hc Hp).
Defined.


(** Commit of 1.1.0 on the component with no definition. *)
Lemma commit_without_definition_witness :
  (component_commit calm "sources" "second" (Some v110) None declared_world).1
    = Raises (KeyError "definition").
Proof.
  set (t := mkVersionTag "sources" (VJson (JStr "demo")) v110).
  assert (Hc : (calculate_component_context "sources" None declared_world).1
               = Val (loaded declared_world)) by reflexivity.
  assert (Hp : ctx_path (loaded declared_world) = Some demo_path)
    by reflexivity.
  assert (Hd : is_Some (od_get SPEC_IOP_DECLARATION_KEY
                          (ctx_spec (loaded declared_world)))) by (by eexists).
  assert (Ht : candidate_tag "sources" (Some v110)
                 (ctx_spec (loaded declared_world)) = Some t) by reflexivity.
  assert (Hts : parse_all (git_tags declared_world).*1 = Some [tag100])
    by reflexivity.
  assert (Hpass : ∀ last_tag, py_max [tag100] = Some last_tag →
                              VersionTag_le t last_tag = false).
  { intros last_tag [= <-]. reflexivity. }
  assert (Hdef : od_get "definition" (ctx_spec (loaded declared_world)) = None)
    by reflexivity.
  by rewrite (CLIMore.commit_without_definition calm "sources" "second"
                (Some v110) None declared_world (loaded declared_world)
                demo_path t [tag100] Hc Hp Hd Ht Hts Hpass Hdef).
Defined.


(** Init of the source [demo] with the default version. *)
Lemma init_creates_spec_witness :
  let out := component_init calm "sources" None
               (fresh_world [" demo "; "A demo source"; ""]) in
  out.1 = Returns (Ret_int 0) ∧
  spec_file out.2 =
    Some ("/work/demo/specification.json",
          Doc (JObj [("name", JStr "demo");
                     ("componentType", JStr "sources");
                     ("description", JStr "A demo source");
                     ("version", JStr "0.0.0")])).
Proof.
  assert (Hone : (count_words false (strip " demo ") ≤ 1)%nat)
    by (vm_compute; lia).
  destruct (CLIMore.init_creates_spec calm "sources"
              (fresh_world [" demo "; "A demo source"; ""])
              " demo " "A demo source" "" [] DEFAULT_VERSION
              eq_refl eq_refl Hone eq_refl) as (H1 & H2 & _).
  split; [exact H1|]. etransitivity; [exact H2|reflexivity].
Defined.

(** Init with a version that is no dotted number. *)
Lemma init_with_unreadable_version_witness :
  let out := component_init calm "sources" None
               (fresh_world ["demo"; "A demo source"; "one"]) in
  out.1 = Raises ParseError ∧ spec_file out.2 = None.
Proof.
  assert (Hone : (count_words false (strip "demo") ≤ 1)%nat)
    by (vm_compute; lia).
  assert (Hblank : String.eqb (strip "one") "" = false) by reflexivity.
  assert (Hv : Version_parse (strip "one") = None) by reflexivity.
  destruct (CLIMore.init_with_unreadable_version calm "sources"
              (fresh_world ["demo"; "A demo source"; "one"])
              "demo" "A demo source" "one" []
              eq_refl eq_refl Hone Hblank Hv) as (H1 & H2 & _).
  split; [exact H1|exact H2].
Defined.

(** Commit right after the init of the source [demo]. *)
Lemma commit_after_init_needs_declaration_witness :
  let w1 := (component_init calm "sources" None
               (fresh_world [" demo "; "A demo source"; ""])).2 in
  (component_commit calm "sources" "first" None None w1).1
    = Returns (Ret_int 1).
Proof.
  assert (Hone : (count_words false (strip " demo ") ≤ 1)%nat)
    by (vm_compute; lia).
  assert (Hread : Version_parse (Version_str DEFAULT_VERSION)
                  = Some DEFAULT_VERSION) by reflexivity.
  destruct (CLIMore.commit_after_init_needs_declaration calm calm "sources"
              "first" None (fresh_world [" demo "; "A demo source"; ""])
              " demo " "A demo source" "" [] DEFAULT_VERSION
              eq_refl eq_refl Hone eq_refl Hread) as (H1 & _).
  exact H1.
Defined.

(** The example component is loaded, saved and loaded again. *)
Lemma reload_gives_same_context_witness :
  (calculate_component_context "sources" None
     (save_component_context (loaded demo_world) demo_world)).1
    = Val (loaded demo_world).
Proof.
  assert (Hc : (calculate_component_context "sources" None demo_world).1
               = Val (loaded demo_world)) by reflexivity.
  assert (Hp : ctx_path (loaded demo_world) = Some demo_path) by reflexivity.
  assert (Hver : od_get "version" (ctx_spec (loaded demo_world))
                 = Some (VVersion v100)) by reflexivity.
  assert (Hv : Version_parse (Version_str v100) = Some v100) by reflexivity.
  by rewrite (CLIMore.reload_gives_same_context "sources" demo_world
                (loaded demo_world) demo_path v100 Hc Hp Hver Hv).
Defined.

End MoreRuns.
